(** * Glyph inventory and text-coverage checking: a shallow embedding

    The development follows the TypeScript sources file by file:
    [JS] holds the fragments of the ECMAScript library the code calls
    (UTF-16 strings, [String.fromCharCode], [String.fromCodePoint],
    [codePointAt], [Array.from] on a string, [trim], [Array.prototype.sort],
    [JSON.stringify]); [opentype] is the view of a parsed font the code
    reads; [Types], [FontExtractor] and [FontChecker] embed [types.ts],
    [font-extractor.ts] and the font checker; [Cli] embeds the argument
    parser of the command line.

    Reading the file from disk and parsing it ([readFileSync],
    [opentype.parse]) are outside the embedding: every function below takes
    the parsed font where the source takes a path. *)

From Stdlib Require Import NArith ZArith List Bool Lia Sorted Permutation.
From Stdlib Require Import Ascii String.
From stdpp Require Import base decidable option list gmap.

Local Open Scope N_scope.

(* ===================================================================== *)
(** ** ECMAScript fragments *)
(* ===================================================================== *)

Module JS.

(** A JavaScript string is a sequence of UTF-16 code units. *)
Abbreviation jsstring := (list N).

(** A [number] that holds either a non-negative integer or [NaN]
    ([charCodeAt] on an empty string). *)
Inductive number : Type :=
| Num (n : N)
| NaN.

(** Code units of an ASCII literal. *)
Definition lit (s : string) : jsstring :=
  List.map N_of_ascii (list_ascii_of_string s).

(** [ToUint16] followed by the one-unit string, for one argument. *)
Definition fromCharCode (u : N) : jsstring := [u mod 0x10000].

Definition highSurrogate (u : N) : N := 0xD800 + (u - 0x10000) / 0x400.
Definition lowSurrogate (u : N) : N := 0xDC00 + (u - 0x10000) mod 0x400.

(** [String.fromCodePoint] for one argument; [None] is the [RangeError]
    raised above U+10FFFF. *)
Definition fromCodePoint (u : N) : option jsstring :=
  if 0x10FFFF <? u then None
  else if u <=? 0xFFFF then Some [u]
  else Some [highSurrogate u; lowSurrogate u].

Definition isHighSurrogate (c : N) : bool := (0xD800 <=? c) && (c <=? 0xDBFF).
Definition isLowSurrogate (c : N) : bool := (0xDC00 <=? c) && (c <=? 0xDFFF).

Definition combineSurrogates (hi lo : N) : N :=
  (hi - 0xD800) * 0x400 + (lo - 0xDC00) + 0x10000.

(** [s.codePointAt(0)]; [None] is [undefined]. *)
Definition codePointAt0 (s : jsstring) : option N :=
  match s with
  | [] => None
  | c :: rest =>
      if isHighSurrogate c then
        match rest with
        | d :: _ => if isLowSurrogate d then Some (combineSurrogates c d) else Some c
        | [] => Some c
        end
      else Some c
  end.

(** [s.charCodeAt(0)]. *)
Definition charCodeAt0 (s : jsstring) : number :=
  match s with
  | [] => NaN
  | c :: _ => Num c
  end.

(** [Array.from(s)]: the string iterator walks code points, pairing a high
    surrogate with the low surrogate that follows it. *)
Fixpoint arrayFrom (s : jsstring) : list jsstring :=
  match s with
  | [] => []
  | c :: rest =>
      match rest with
      | d :: rest' =>
          if isHighSurrogate c && isLowSurrogate d
          then [c; d] :: arrayFrom rest'
          else [c] :: arrayFrom rest
      | [] => [[c]]
      end
  end.

(** WhiteSpace and LineTerminator code units: what [trim] strips and what
    [\s] matches. *)
Definition isWhiteSpace (c : N) : bool :=
  (c =? 0x09) || (c =? 0x0A) || (c =? 0x0B) || (c =? 0x0C) || (c =? 0x0D)
  || (c =? 0x20) || (c =? 0xA0) || (c =? 0x1680)
  || ((0x2000 <=? c) && (c <=? 0x200A))
  || (c =? 0x2028) || (c =? 0x2029) || (c =? 0x202F) || (c =? 0x205F)
  || (c =? 0x3000) || (c =? 0xFEFF).

Fixpoint trimStart (s : jsstring) : jsstring :=
  match s with
  | [] => []
  | c :: rest => if isWhiteSpace c then trimStart rest else s
  end.

Definition trimEnd (s : jsstring) : jsstring := rev (trimStart (rev s)).

Definition trim (s : jsstring) : jsstring := trimEnd (trimStart s).

(** [s === ''] on strings. *)
Definition isEmpty (s : jsstring) : bool :=
  match s with [] => true | _ :: _ => false end.

(** [s.replace(/\s+/g, '')]. *)
Definition removeWhiteSpace (s : jsstring) : jsstring :=
  List.filter (fun c => negb (isWhiteSpace c)) s.

(** Decimal digits of a non-negative integer ([Number::toString]). *)
Fixpoint digits (d : Decimal.uint) : jsstring :=
  match d with
  | Decimal.Nil => []
  | Decimal.D0 d' => 48 :: digits d'
  | Decimal.D1 d' => 49 :: digits d'
  | Decimal.D2 d' => 50 :: digits d'
  | Decimal.D3 d' => 51 :: digits d'
  | Decimal.D4 d' => 52 :: digits d'
  | Decimal.D5 d' => 53 :: digits d'
  | Decimal.D6 d' => 54 :: digits d'
  | Decimal.D7 d' => 55 :: digits d'
  | Decimal.D8 d' => 56 :: digits d'
  | Decimal.D9 d' => 57 :: digits d'
  end.

Definition toStringN (n : N) : jsstring := digits (N.to_uint n).
Definition toStringNat (n : nat) : jsstring := digits (Nat.to_uint n).

(** [xs.join(sep)] on strings. *)
Fixpoint join (sep : jsstring) (xs : list jsstring) : jsstring :=
  match xs with
  | [] => []
  | [x] => x
  | x :: rest => x ++ sep ++ join sep rest
  end.

(** [Array.prototype.sort] with a comparator.  The sort is stable; with a
    comparator that is a consistent order its result is the one stable
    sorted arrangement, which insertion from the right computes: an element
    goes in front of the first element it does not compare greater than. *)
Section Sort.
Context {A : Type} (cmp : A -> A -> Z).

Fixpoint insertSorted (x : A) (l : list A) : list A :=
  match l with
  | [] => [x]
  | y :: l' => if (cmp x y <=? 0)%Z then x :: l else y :: insertSorted x l'
  end.

Definition sort (l : list A) : list A := List.fold_right insertSorted [] l.
End Sort.

(** *** JSON.stringify *)

Definition hexDigit (n : N) : N := if n <? 10 then 48 + n else 87 + n.

(** Four lower-case hexadecimal digits of a code unit. *)
Definition hex4 (c : N) : jsstring :=
  [hexDigit (c / 0x1000 mod 16); hexDigit (c / 0x100 mod 16);
   hexDigit (c / 0x10 mod 16); hexDigit (c mod 16)].

Definition unicodeEscape (c : N) : jsstring := lit "\u" ++ hex4 c.

(** One code point of [QuoteJSONString]. *)
Definition quoteCodePoint (cp : jsstring) : jsstring :=
  match cp with
  | [c] =>
      if c =? 0x08 then lit "\b"
      else if c =? 0x09 then lit "\t"
      else if c =? 0x0A then lit "\n"
      else if c =? 0x0C then lit "\f"
      else if c =? 0x0D then lit "\r"
      else if c =? 0x22 then [0x5C; 0x22]
      else if c =? 0x5C then lit "\\"
      else if (c <? 0x20) || ((0xD800 <=? c) && (c <=? 0xDFFF)) then unicodeEscape c
      else [c]
  | _ => cp
  end.

Definition quoteJSONString (s : jsstring) : jsstring :=
  [0x22] ++ List.concat (List.map quoteCodePoint (arrayFrom s)) ++ [0x22].

Definition newline : jsstring := [0x0A].
Definition indent (n : nat) : jsstring := List.repeat 0x20 n.

(** The rendering of an array whose elements are already rendered at
    nesting depth [depth], with a gap of two spaces. *)
Definition stringifyArray (depth : nat) (items : list jsstring) : jsstring :=
  match items with
  | [] => lit "[]"
  | _ :: _ =>
      lit "[" ++ newline
      ++ join (lit "," ++ newline) (List.map (fun it => indent (2 * (depth + 1)) ++ it) items)
      ++ newline ++ indent (2 * depth) ++ lit "]"
  end.

(** The rendering of an object from its [(key, rendered value)] pairs, in
    property order. *)
Definition stringifyObject (depth : nat) (props : list (jsstring * jsstring)) : jsstring :=
  match props with
  | [] => lit "{}"
  | _ :: _ =>
      lit "{" ++ newline
      ++ join (lit "," ++ newline)
           (List.map (fun kv => indent (2 * (depth + 1))
                                 ++ quoteJSONString (fst kv) ++ lit ": " ++ snd kv) props)
      ++ newline ++ indent (2 * depth) ++ lit "}"
  end.

Definition stringifyBool (b : bool) : jsstring :=
  if b then lit "true" else lit "false".

End JS.

(* ===================================================================== *)
(** ** The parsed font, as the code reads it *)
(* ===================================================================== *)

Module opentype.
Import JS.

(** A name-table entry is an object keyed by language; the code only reads
    its [en] property. *)
Record LocalizedName : Type := { en : option jsstring }.

Record FontNames : Type := {
  fontFamily : option LocalizedName;
  fontSubfamily : option LocalizedName;
  fullName : option LocalizedName;
  postScriptName : option LocalizedName
}.

(** Outline data; only its presence is observed. *)
Inductive Path : Type := PathData.

(** [unicode] is the code point the character map gives the glyph, a
    non-negative integer, or undefined; [name] and [path] may be undefined
    or null. *)
Record Glyph : Type := {
  unicode : option N;
  name : option jsstring;
  path : option Path
}.

(** [font.glyphs.length] and [font.glyphs.get(i)] are the length of and the
    lookup in [glyphs]. *)
Record Font : Type := {
  names : FontNames;
  glyphs : list Glyph
}.

End opentype.

(* ===================================================================== *)
(** ** types.ts *)
(* ===================================================================== *)

Module Types.
Import JS.

Record FontGlyph : Type := {
  unicode : N;
  char : jsstring;
  name : jsstring;
  hasPath : bool
}.

(** What a metadata field holds at run time: the English string, or the
    whole name-table entry when it has no usable [en]. *)
Inductive NameValue : Type :=
| NameString (s : jsstring)
| NameObject (entry : opentype.LocalizedName).

Record FontInfo : Type := {
  familyName : NameValue;
  subfamilyName : NameValue;
  fullName : NameValue;
  postScriptName : NameValue;
  glyphCount : nat;
  glyphs : list FontGlyph;
  extractedText : jsstring
}.

Inductive OutputFormat : Type := text | json | array.

(** Every option may be left undefined.  [filter] is a function of its two
    arguments alone; its result stands for the truthiness of what the
    callback returns. *)
Record ExtractOptions : Type := {
  printableOnly : option bool;
  includeControlChars : option bool;
  filter : option (jsstring -> N -> bool);
  outputFormat : option OutputFormat
}.

End Types.

(* ===================================================================== *)
(** ** font-extractor.ts *)
(* ===================================================================== *)

Module FontExtractor.
Import JS.

Definition isPrintableChar (char : jsstring) (unicode : N) : bool :=
  if (0x20 <=? unicode) && (unicode <=? 0x7E) then true
  else if (0xA0 <=? unicode) && (unicode <=? 0xFF) then true
  else if (0x4E00 <=? unicode) && (unicode <=? 0x9FFF) then true
  else if (0x3400 <=? unicode) && (unicode <=? 0x4DBF) then true
  else if (0x20000 <=? unicode) && (unicode <=? 0x2A6DF) then true
  else if (0x0100 <=? unicode) && (unicode <=? 0x017F) then true
  else if (0x0180 <=? unicode) && (unicode <=? 0x024F) then true
  else if (0x0370 <=? unicode) && (unicode <=? 0x03FF) then true
  else if (0x0400 <=? unicode) && (unicode <=? 0x04FF) then true
  else if (0x3040 <=? unicode) && (unicode <=? 0x309F) then true
  else if (0x30A0 <=? unicode) && (unicode <=? 0x30FF) then true
  else if (0xAC00 <=? unicode) && (unicode <=? 0xD7AF) then true
  else if (0x1F300 <=? unicode) && (unicode <=? 0x1F9FF) then true
  else if (0x1F <? unicode) && negb ((0xD800 <=? unicode) && (unicode <=? 0xDFFF)) then
    (* String.fromCharCode does not throw: the catch branch is dead *)
    let charCode := fromCharCode unicode in
    if negb (isEmpty (trim charCode)) || (unicode =? 0x20) then true
    else false
  else false.

(** [entry?.en || entry || fallback]: an empty or missing [en] is falsy,
    the entry itself is an object and truthy.  [fallback] is [None] when
    evaluating it throws. *)
Definition nameOr (entry : option opentype.LocalizedName)
    (fallback : option Types.NameValue) : option Types.NameValue :=
  match entry with
  | None => fallback
  | Some e =>
      match opentype.en e with
      | Some s => if isEmpty s then Some (Types.NameObject e) else Some (Types.NameString s)
      | None => Some (Types.NameObject e)
      end
  end.

(** Interpolation in a template literal. *)
Definition interpolate (v : Types.NameValue) : jsstring :=
  match v with
  | Types.NameString s => s
  | Types.NameObject _ => lit "[object Object]"
  end.

(** [fullName.replace(/\s+/g, '')]; an object has no [replace] method and
    the call raises a [TypeError]. *)
Definition stripWhiteSpace (v : Types.NameValue) : option Types.NameValue :=
  match v with
  | Types.NameString s => Some (Types.NameString (removeWhiteSpace s))
  | Types.NameObject _ => None
  end.

Record Metadata : Type := {
  familyName : Types.NameValue;
  subfamilyName : Types.NameValue;
  fullName : Types.NameValue;
  postScriptName : Types.NameValue
}.

(** The four metadata lines of [extractTextFromFont]. *)
Definition metadata (font : opentype.Font) : option Metadata :=
  let names := opentype.names font in
  familyName ← nameOr (opentype.fontFamily names) (Some (Types.NameString (lit "Unknown")));
  subfamilyName ← nameOr (opentype.fontSubfamily names) (Some (Types.NameString (lit "Unknown")));
  fullName ← nameOr (opentype.fullName names)
    (Some (Types.NameString (interpolate familyName ++ lit " " ++ interpolate subfamilyName)));
  postScriptName ← nameOr (opentype.postScriptName names) (stripWhiteSpace fullName);
  Some {| familyName := familyName; subfamilyName := subfamilyName;
          fullName := fullName; postScriptName := postScriptName |}.

(** The four metadata lines of [extractTextFromFontSync]. *)
Definition metadataSync (font : opentype.Font) : option Metadata :=
  let names := opentype.names font in
  familyName ← nameOr (opentype.fontFamily names) (Some (Types.NameString (lit "Unknown")));
  subfamilyName ← nameOr (opentype.fontSubfamily names) (Some (Types.NameString (lit "Unknown")));
  fullName ← nameOr (opentype.fullName names)
    (Some (Types.NameString (interpolate familyName ++ lit " " ++ interpolate subfamilyName)));
  postScriptName ← nameOr (opentype.postScriptName names) (stripWhiteSpace fullName);
  Some {| familyName := familyName; subfamilyName := subfamilyName;
          fullName := fullName; postScriptName := postScriptName |}.

(** The state of the scanning loop of [extractTextFromFont]: the records
    pushed so far, the set of characters seen, and the code points reported
    through [console.warn]. *)
Record ScanState : Type := {
  glyphs : list Types.FontGlyph;
  textSet : gset jsstring;
  console : list N
}.

(** One iteration of the loop of [extractTextFromFont], for glyph [i]. *)
Definition scanGlyph (printableOnly includeControlChars : bool)
    (filter : option (jsstring -> N -> bool))
    (st : ScanState) (i : nat) (glyph : opentype.Glyph) : ScanState :=
  match opentype.unicode glyph with
  | None => st
  | Some unicode =>
      match (if unicode <=? 0xFFFF then Some (fromCharCode unicode)
             else fromCodePoint unicode) with
      | None =>
          {| glyphs := glyphs st; textSet := textSet st;
             console := console st ++ [unicode] |}
      | Some char =>
          let shouldInclude := true in
          let shouldInclude :=
            if printableOnly && negb (isPrintableChar char unicode)
            then false else shouldInclude in
          let shouldInclude :=
            if negb includeControlChars && (0x00 <=? unicode) && (unicode <=? 0x1F)
            then false else shouldInclude in
          let shouldInclude :=
            if shouldInclude
               && match filter with
                  | Some f => negb (f char unicode)
                  | None => false
                  end
            then false else shouldInclude in
          if negb shouldInclude then st
          else if decide (char ∈ textSet st) then st
          else
            {| glyphs :=
                 glyphs st ++
                 [{| Types.unicode := unicode;
                     Types.char := char;
                     Types.name :=
                       match opentype.name glyph with
                       | Some n => if isEmpty n then lit "glyph_" ++ toStringNat i else n
                       | None => lit "glyph_" ++ toStringNat i
                       end;
                     Types.hasPath :=
                       match opentype.path glyph with Some _ => true | None => false end |}];
               textSet := textSet st ∪ {[ char ]};
               console := console st |}
      end
  end.

(** [for (let i = ...; i < font.glyphs.length; i++)], from index [i] over
    the glyphs that remain. *)
Fixpoint scanLoop (printableOnly includeControlChars : bool)
    (filter : option (jsstring -> N -> bool))
    (i : nat) (rest : list opentype.Glyph) (st : ScanState) : ScanState :=
  match rest with
  | [] => st
  | glyph :: rest' =>
      scanLoop printableOnly includeControlChars filter (S i) rest'
        (scanGlyph printableOnly includeControlChars filter st i glyph)
  end.

(** [(a, b) => a.unicode - b.unicode]. *)
Definition byUnicode (a b : Types.FontGlyph) : Z :=
  (Z.of_N (Types.unicode a) - Z.of_N (Types.unicode b))%Z.

(** [JSON.stringify] of one [FontGlyph] at nesting depth [depth]. *)
Definition stringifyFontGlyph (depth : nat) (g : Types.FontGlyph) : jsstring :=
  stringifyObject depth
    [(lit "unicode", toStringN (Types.unicode g));
     (lit "char", quoteJSONString (Types.char g));
     (lit "name", quoteJSONString (Types.name g));
     (lit "hasPath", stringifyBool (Types.hasPath g))].

(** What one call of [extractTextFromFont] does: the value its promise
    settles with ([None] when the call throws) and what it wrote through
    [console.warn]. *)
Record Run : Type := {
  settled : option Types.FontInfo;
  warned : list N
}.

Definition extractTextFromFont_run (font : opentype.Font)
    (options : Types.ExtractOptions) : Run :=
  let printableOnly := default true (Types.printableOnly options) in
  let includeControlChars := default false (Types.includeControlChars options) in
  let filter := Types.filter options in
  let outputFormat := default Types.text (Types.outputFormat options) in
  match metadata font with
  | None => {| settled := None; warned := [] |}
  | Some meta =>
      let st := scanLoop printableOnly includeControlChars filter 0
                  (opentype.glyphs font)
                  {| glyphs := []; textSet := ∅; console := [] |} in
      let glyphs := sort byUnicode (glyphs st) in
      let extractedText :=
        match outputFormat with
        | Types.array =>
            stringifyArray 0 (List.map (fun g => quoteJSONString (Types.char g)) glyphs)
        | Types.json =>
            stringifyArray 0 (List.map (stringifyFontGlyph 1) glyphs)
        | Types.text =>
            join [] (List.map (fun g => Types.char g) glyphs)
        end in
      {| settled :=
           Some {| Types.familyName := familyName meta;
                   Types.subfamilyName := subfamilyName meta;
                   Types.fullName := fullName meta;
                   Types.postScriptName := postScriptName meta;
                   Types.glyphCount := length glyphs;
                   Types.glyphs := glyphs;
                   Types.extractedText := extractedText |};
         warned := console st |}
  end.

(** The value [extractTextFromFont] resolves with. *)
Definition extractTextFromFont (font : opentype.Font)
    (options : Types.ExtractOptions) : option Types.FontInfo :=
  settled (extractTextFromFont_run font options).

(** One iteration of the loop of [extractTextFromFontSync]: no diagnostic,
    and one combined test before the push. *)
Definition scanGlyphSync (printableOnly includeControlChars : bool)
    (filter : option (jsstring -> N -> bool))
    (st : list Types.FontGlyph * gset jsstring) (i : nat)
    (glyph : opentype.Glyph) : list Types.FontGlyph * gset jsstring :=
  let '(glyphs, textSet) := st in
  match opentype.unicode glyph with
  | None => st
  | Some unicode =>
      match (if unicode <=? 0xFFFF then Some (fromCharCode unicode)
             else fromCodePoint unicode) with
      | None => st
      | Some char =>
          let shouldInclude := true in
          let shouldInclude :=
            if printableOnly && negb (isPrintableChar char unicode)
            then false else shouldInclude in
          let shouldInclude :=
            if negb includeControlChars && (0x00 <=? unicode) && (unicode <=? 0x1F)
            then false else shouldInclude in
          let shouldInclude :=
            if shouldInclude
               && match filter with
                  | Some f => negb (f char unicode)
                  | None => false
                  end
            then false else shouldInclude in
          if negb shouldInclude || bool_decide (char ∈ textSet) then st
          else
            (glyphs ++
             [{| Types.unicode := unicode;
                 Types.char := char;
                 Types.name :=
                   match opentype.name glyph with
                   | Some n => if isEmpty n then lit "glyph_" ++ toStringNat i else n
                   | None => lit "glyph_" ++ toStringNat i
                   end;
                 Types.hasPath :=
                   match opentype.path glyph with Some _ => true | None => false end |}],
             textSet ∪ {[ char ]})
      end
  end.

Fixpoint scanLoopSync (printableOnly includeControlChars : bool)
    (filter : option (jsstring -> N -> bool))
    (i : nat) (rest : list opentype.Glyph)
    (st : list Types.FontGlyph * gset jsstring) : list Types.FontGlyph * gset jsstring :=
  match rest with
  | [] => st
  | glyph :: rest' =>
      scanLoopSync printableOnly includeControlChars filter (S i) rest'
        (scanGlyphSync printableOnly includeControlChars filter st i glyph)
  end.

(** [extractTextFromFontSync]; [None] when the call throws. *)
Definition extractTextFromFontSync (font : opentype.Font)
    (options : Types.ExtractOptions) : option Types.FontInfo :=
  let printableOnly := default true (Types.printableOnly options) in
  let includeControlChars := default false (Types.includeControlChars options) in
  let filter := Types.filter options in
  let outputFormat := default Types.text (Types.outputFormat options) in
  meta ← metadataSync font;
  let glyphs :=
    sort byUnicode
      (fst (scanLoopSync printableOnly includeControlChars filter 0
              (opentype.glyphs font) ([], ∅))) in
  let extractedText :=
    match outputFormat with
    | Types.array =>
        stringifyArray 0 (List.map (fun g => quoteJSONString (Types.char g)) glyphs)
    | Types.json =>
        stringifyArray 0 (List.map (stringifyFontGlyph 1) glyphs)
    | Types.text =>
        join [] (List.map (fun g => Types.char g) glyphs)
    end in
  Some {| Types.familyName := familyName meta;
          Types.subfamilyName := subfamilyName meta;
          Types.fullName := fullName meta;
          Types.postScriptName := postScriptName meta;
          Types.glyphCount := length glyphs;
          Types.glyphs := glyphs;
          Types.extractedText := extractedText |}.

End FontExtractor.

(* ===================================================================== *)
(** ** The font checker *)
(* ===================================================================== *)

Module FontChecker.
Import JS.

Record CharCheckResult : Type := {
  char : jsstring;
  unicode : number;
  exists_ : bool;
  glyphName : option jsstring
}.

Record TextCheckResult : Type := {
  text : jsstring;
  chars : list CharCheckResult;
  allExists : bool;
  missingChars : list jsstring
}.

(** [char.codePointAt(0) ?? char.charCodeAt(0)]. *)
Definition unicodeOf (char : jsstring) : number :=
  match codePointAt0 char with
  | Some n => Num n
  | None => charCodeAt0 char
  end.

(** [glyph.unicode === unicode]: [undefined] and [NaN] equal nothing. *)
Definition strictEq (glyphUnicode : option N) (unicode : number) : bool :=
  match glyphUnicode, unicode with
  | Some a, Num b => a =? b
  | _, _ => false
  end.

(** The search loop of [checkCharInFont] from index [i]: the pair
    [(exists, glyphName)] it leaves, stopping at the first match. *)
Fixpoint findGlyph (unicode : number) (i : nat) (rest : list opentype.Glyph)
    : bool * option jsstring :=
  match rest with
  | [] => (false, None)
  | glyph :: rest' =>
      if strictEq (opentype.unicode glyph) unicode then
        (true,
         Some match opentype.name glyph with
              | Some n => if isEmpty n then lit "glyph_" ++ toStringNat i else n
              | None => lit "glyph_" ++ toStringNat i
              end)
      else findGlyph unicode (S i) rest'
  end.

Definition checkCharInFont (font : opentype.Font) (char : jsstring) : CharCheckResult :=
  let unicode := unicodeOf char in
  let '(exists_, glyphName) := findGlyph unicode 0 (opentype.glyphs font) in
  {| char := char; unicode := unicode; exists_ := exists_; glyphName := glyphName |}.

Record GlyphInfo : Type := {
  name : jsstring;
  index : nat
}.

(** The loop that fills [unicodeToGlyph], from index [i]; a later glyph
    with the same code point replaces an earlier one. *)
Fixpoint fillMap (i : nat) (rest : list opentype.Glyph)
    (unicodeToGlyph : gmap N GlyphInfo) : gmap N GlyphInfo :=
  match rest with
  | [] => unicodeToGlyph
  | glyph :: rest' =>
      fillMap (S i) rest'
        match opentype.unicode glyph with
        | Some u =>
            <[ u := {| name :=
                         match opentype.name glyph with
                         | Some n => if isEmpty n then lit "glyph_" ++ toStringNat i else n
                         | None => lit "glyph_" ++ toStringNat i
                         end;
                       index := i |} ]> unicodeToGlyph
        | None => unicodeToGlyph
        end
  end.

(** [unicodeToGlyph.get(unicode)]; no key is [NaN]. *)
Definition mapGet (unicodeToGlyph : gmap N GlyphInfo) (unicode : number) : option GlyphInfo :=
  match unicode with
  | Num n => unicodeToGlyph !! n
  | NaN => None
  end.

(** One iteration of [for (const char of chars)] on
    [(charResults, missingChars)]. *)
Definition checkOne (unicodeToGlyph : gmap N GlyphInfo)
    (st : list CharCheckResult * list jsstring) (char : jsstring)
    : list CharCheckResult * list jsstring :=
  let '(charResults, missingChars) := st in
  let unicode := unicodeOf char in
  let glyphInfo := mapGet unicodeToGlyph unicode in
  let exists_ := match glyphInfo with Some _ => true | None => false end in
  let result :=
    {| char := char; unicode := unicode; exists_ := exists_;
       glyphName := match glyphInfo with Some gi => Some (name gi) | None => None end |} in
  (charResults ++ [result],
   if negb exists_ then missingChars ++ [char] else missingChars).

Definition checkTextInFont (font : opentype.Font) (text : jsstring) : TextCheckResult :=
  let chars := arrayFrom text in
  let unicodeToGlyph := fillMap 0 (opentype.glyphs font) ∅ in
  let '(charResults, missingChars) :=
    List.fold_left (checkOne unicodeToGlyph) chars ([], []) in
  {| text := text;
     chars := charResults;
     allExists := Nat.eqb (length missingChars) 0;
     missingChars := missingChars |}.

Definition checkMultipleTextsInFont (font : opentype.Font)
    (texts : list jsstring) : list TextCheckResult :=
  List.map (fun text => checkTextInFont font text) texts.

End FontChecker.

(* ===================================================================== *)
(** ** The command line *)
(* ===================================================================== *)

Module Cli.
Import JS.

Record CliOptions : Type := {
  format : Types.OutputFormat;
  output : option jsstring;
  printableOnly : bool;
  includeControl : bool;
  info : bool
}.

(** Why [parseArgs] printed an error and called [process.exit(1)]. *)
Inductive Failure : Type :=
| NoFontPath
| InvalidFormat (format : jsstring)
| UnknownOption (arg : jsstring).

Inductive Outcome (A : Type) : Type :=
| Return (a : A)
| Exit (why : Failure).
Arguments Return {A} a.
Arguments Exit {A} why.

(** [['text', 'json', 'array'].includes(format)], with the format it names. *)
Definition asFormat (s : jsstring) : option Types.OutputFormat :=
  if bool_decide (s = lit "text") then Some Types.text
  else if bool_decide (s = lit "json") then Some Types.json
  else if bool_decide (s = lit "array") then Some Types.array
  else None.

(** The three branches that take no value; [None] is the final [else]. *)
Definition flag (arg : jsstring) (options : CliOptions) : option CliOptions :=
  if bool_decide (arg = lit "--printable-only") then
    Some {| format := format options; output := output options;
            printableOnly := true; includeControl := includeControl options;
            info := info options |}
  else if bool_decide (arg = lit "--include-control") then
    Some {| format := format options; output := output options;
            printableOnly := false; includeControl := true;
            info := info options |}
  else if bool_decide (arg = lit "--info") then
    Some {| format := format options; output := output options;
            printableOnly := printableOnly options;
            includeControl := includeControl options; info := true |}
  else None.

(** The loop of [parseArgs] over the arguments that remain.  [--format] and
    [--output] take the next argument only when there is one; as the last
    argument they fall through to the final [else]. *)
Fixpoint parseFrom (rest : list jsstring) (options : CliOptions) : Outcome CliOptions :=
  match rest with
  | [] => Return options
  | arg :: rest' =>
      match rest' with
      | value :: rest'' =>
          if bool_decide (arg = lit "--format") then
            match asFormat value with
            | Some fmt =>
                parseFrom rest''
                  {| format := fmt; output := output options;
                     printableOnly := printableOnly options;
                     includeControl := includeControl options;
                     info := info options |}
            | None => Exit (InvalidFormat value)
            end
          else if bool_decide (arg = lit "--output") then
            parseFrom rest''
              {| format := format options; output := Some value;
                 printableOnly := printableOnly options;
                 includeControl := includeControl options;
                 info := info options |}
          else
            match flag arg options with
            | Some options' => parseFrom rest' options'
            | None => Exit (UnknownOption arg)
            end
      | [] =>
          match flag arg options with
          | Some options' => parseFrom rest' options'
          | None => Exit (UnknownOption arg)
          end
      end
  end.

Definition initial : CliOptions :=
  {| format := Types.text; output := None; printableOnly := true;
     includeControl := false; info := false |}.

(** [parseArgs] on [process.argv.slice(2)]. *)
Definition parseArgs (args : list jsstring) : Outcome (jsstring * CliOptions) :=
  match args with
  | [] => Exit NoFontPath
  | fontPath :: rest =>
      match parseFrom rest initial with
      | Return options => Return (fontPath, options)
      | Exit why => Exit why
      end
  end.

(** The options [main] passes to [extractTextFromFont]. *)
Definition extractOptions (options : CliOptions) : Types.ExtractOptions :=
  {| Types.printableOnly := Some (printableOnly options);
     Types.includeControlChars := Some (includeControl options);
     Types.filter := None;
     Types.outputFormat := Some (format options) |}.

End Cli.

(* ===================================================================== *)
(** ** Sample fonts and options *)
(* ===================================================================== *)

Module Samples.
Import JS.

Definition noNames : opentype.FontNames :=
  {| opentype.fontFamily := None; opentype.fontSubfamily := None;
     opentype.fullName := None; opentype.postScriptName := None |}.

Definition glyphAt (u : N) (n : string) : opentype.Glyph :=
  {| opentype.unicode := Some u; opentype.name := Some (lit n);
     opentype.path := Some opentype.PathData |}.

Definition fontOf (gs : list opentype.Glyph) : opentype.Font :=
  {| opentype.names := noNames; opentype.glyphs := gs |}.

Definition defaults : Types.ExtractOptions :=
  {| Types.printableOnly := None; Types.includeControlChars := None;
     Types.filter := None; Types.outputFormat := None |}.

Definition withFormat (fmt : Types.OutputFormat) : Types.ExtractOptions :=
  {| Types.printableOnly := None; Types.includeControlChars := None;
     Types.filter := None; Types.outputFormat := Some fmt |}.

(** What the command line passes for [--include-control]. *)
Definition includeControl : Types.ExtractOptions :=
  {| Types.printableOnly := Some false; Types.includeControlChars := Some true;
     Types.filter := None; Types.outputFormat := Some Types.text |}.

(** A, the ideograph U+4E2D and the emoji U+1F600, out of order, behind a
    glyph without a code point. *)
Definition threeScripts : opentype.Font :=
  fontOf [ {| opentype.unicode := None; opentype.name := Some (lit ".notdef");
              opentype.path := None |};
           glyphAt 0x1F600 "u1F600"; glyphAt 0x41 "A"; glyphAt 0x4E2D "uni4E2D" ].

(** Two glyphs mapped to the two halves of a surrogate pair. *)
Definition surrogateHalves : opentype.Font :=
  fontOf [ glyphAt 0xD83D "high"; glyphAt 0xDE00 "low" ].

(** Two glyphs for the tab character and two for the letter A. *)
Definition duplicates : opentype.Font :=
  fontOf [ glyphAt 0x09 "tab"; glyphAt 0x41 "A"; glyphAt 0x09 "tab.alt";
           glyphAt 0x41 "A.alt" ].

(** A glyph for U+20000 next to the letter A. *)
Definition withExtensionB : opentype.Font :=
  fontOf [ glyphAt 0x20000 "u20000"; glyphAt 0x41 "A" ].

(** A control character, two letters, and a filter that rejects [B]. *)
Definition withTab : opentype.Font :=
  fontOf [ glyphAt 0x09 "tab"; glyphAt 0x42 "B"; glyphAt 0x41 "A" ].

Definition rejectB : Types.ExtractOptions :=
  {| Types.printableOnly := Some false; Types.includeControlChars := None;
     Types.filter := Some (fun _ u => negb (u =? 0x42));
     Types.outputFormat := None |}.

(** One glyph, mapped to U+12000 (a cuneiform sign). *)
Definition cuneiform : opentype.Font := fontOf [ glyphAt 0x12000 "u12000" ].

End Samples.

(* ===================================================================== *)
(** ** Vocabulary of the properties *)
(* ===================================================================== *)

Module Props.
Import JS.

(** The conversion at the head of the loop body: one unit up to U+FFFF,
    [String.fromCodePoint] above; [None] when the conversion throws. *)
Definition toChar (u : N) : option jsstring :=
  if u <=? 0xFFFF then Some (fromCharCode u) else fromCodePoint u.

Definition isSurrogate (u : N) : bool := (0xD800 <=? u) && (u <=? 0xDFFF).

(** A Unicode scalar value. *)
Definition isScalar (u : N) : bool := (u <=? 0x10FFFF) && negb (isSurrogate u).

(** The UTF-16 form of a sequence of code points. *)
Definition utf16 (us : list N) : jsstring :=
  List.concat (List.map (fun u => default [] (fromCodePoint u)) us).

(** The three filters of the loop body, combined: a glyph is kept when none
    of them excludes it. *)
Definition passes (printableOnly includeControlChars : bool)
    (filter : option (jsstring -> N -> bool)) (char : jsstring) (unicode : N) : bool :=
  (negb printableOnly || FontExtractor.isPrintableChar char unicode)
  && (includeControlChars || (0x1F <? unicode))
  && match filter with Some f => f char unicode | None => true end.

(** The display label [glyph.name || `glyph_${i}`]. *)
Definition label (glyph : opentype.Glyph) (i : nat) : jsstring :=
  match opentype.name glyph with
  | Some n => if isEmpty n then lit "glyph_" ++ toStringNat i else n
  | None => lit "glyph_" ++ toStringNat i
  end.

(** The record the loop pushes for glyph [i] with code point [u] and
    character [c]. *)
Definition recordOf (i : nat) (glyph : opentype.Glyph) (u : N) (c : jsstring)
    : Types.FontGlyph :=
  {| Types.unicode := u; Types.char := c; Types.name := label glyph i;
     Types.hasPath := match opentype.path glyph with Some _ => true | None => false end |}.

(** The record glyph [i] contributes when it reaches the duplicate test. *)
Definition candidate (printableOnly includeControlChars : bool)
    (filter : option (jsstring -> N -> bool)) (i : nat) (glyph : opentype.Glyph)
    : option Types.FontGlyph :=
  match opentype.unicode glyph with
  | None => None
  | Some u =>
      match toChar u with
      | None => None
      | Some c =>
          if passes printableOnly includeControlChars filter c u
          then Some (recordOf i glyph u c) else None
      end
  end.

(** The loop body on the pair (records, characters seen): push the
    candidate unless its character was seen already. *)
Definition step (printableOnly includeControlChars : bool)
    (filter : option (jsstring -> N -> bool))
    (st : list Types.FontGlyph * gset jsstring) (i : nat) (glyph : opentype.Glyph)
    : list Types.FontGlyph * gset jsstring :=
  match candidate printableOnly includeControlChars filter i glyph with
  | Some r =>
      if decide (Types.char r ∈ st.2) then st
      else (st.1 ++ [r], st.2 ∪ {[ Types.char r ]})
  | None => st
  end.

Fixpoint loop (printableOnly includeControlChars : bool)
    (filter : option (jsstring -> N -> bool))
    (i : nat) (rest : list opentype.Glyph)
    (st : list Types.FontGlyph * gset jsstring) : list Types.FontGlyph * gset jsstring :=
  match rest with
  | [] => st
  | glyph :: rest' =>
      loop printableOnly includeControlChars filter (S i) rest'
        (step printableOnly includeControlChars filter st i glyph)
  end.

(** The records [extractTextFromFont] collects before sorting. *)
Definition collected (font : opentype.Font) (o : Types.ExtractOptions)
    : list Types.FontGlyph :=
  (loop (default true (Types.printableOnly o))
        (default false (Types.includeControlChars o))
        (Types.filter o) 0 (opentype.glyphs font) ([], ∅)).1.

(** The [switch] on the output format. *)
Definition renderText (fmt : Types.OutputFormat) (glyphs : list Types.FontGlyph)
    : jsstring :=
  match fmt with
  | Types.array =>
      stringifyArray 0 (List.map (fun g => quoteJSONString (Types.char g)) glyphs)
  | Types.json =>
      stringifyArray 0 (List.map (FontExtractor.stringifyFontGlyph 1) glyphs)
  | Types.text =>
      join [] (List.map (fun g => Types.char g) glyphs)
  end.

(** The set of characters seen is the set of characters recorded, and no
    character is recorded twice. *)
Definition seenMatches (st : list Types.FontGlyph * gset jsstring) : Prop :=
  List.NoDup (List.map Types.char st.1)
  /\ forall c, c ∈ st.2 <-> In c (List.map Types.char st.1).

(** A filter predicate applied to a record. *)
Definition onRecord (k : jsstring -> N -> bool) (r : Types.FontGlyph) : bool :=
  k (Types.char r) (Types.unicode r).

(** The verdict of the custom filter of [o] on a record; no filter keeps
    every record. *)
Definition keeps (o : Types.ExtractOptions) (r : Types.FontGlyph) : bool :=
  match Types.filter o with
  | Some k => onRecord k r
  | None => true
  end.

(** The state of a scan with a custom filter against the state of the same
    scan without one: the filtered records, with both sets of seen
    characters in step with their records. *)
Definition filteredView (K : Types.FontGlyph -> bool)
    (stF stN : list Types.FontGlyph * gset jsstring) : Prop :=
  stF.1 = List.filter K stN.1
  /\ seenMatches stF /\ seenMatches stN
  /\ forall r, In r stN.1 -> toChar (Types.unicode r) = Some (Types.char r).

(** The entry the checking loop pushes for one character. *)
Definition resultOf (unicodeToGlyph : gmap N FontChecker.GlyphInfo) (c : jsstring)
    : FontChecker.CharCheckResult :=
  {| FontChecker.char := c;
     FontChecker.unicode := FontChecker.unicodeOf c;
     FontChecker.exists_ :=
       match FontChecker.mapGet unicodeToGlyph (FontChecker.unicodeOf c) with
       | Some _ => true
       | None => false
       end;
     FontChecker.glyphName :=
       match FontChecker.mapGet unicodeToGlyph (FontChecker.unicodeOf c) with
       | Some gi => Some (FontChecker.name gi)
       | None => None
       end |}.

(** An entry reported as missing. *)
Definition isMissing (r : FontChecker.CharCheckResult) : bool :=
  negb (FontChecker.exists_ r).

(** Some glyph of the list carries the code point. *)
Definition hasGlyph (gs : list opentype.Glyph) (u : N) : Prop :=
  exists g, In g gs /\ opentype.unicode g = Some u.

(** The same options with another output format. *)
Definition setFormat (fmt : option Types.OutputFormat) (o : Types.ExtractOptions)
    : Types.ExtractOptions :=
  {| Types.printableOnly := Types.printableOnly o;
     Types.includeControlChars := Types.includeControlChars o;
     Types.filter := Types.filter o;
     Types.outputFormat := fmt |}.

(** The same options without the custom filter. *)
Definition dropFilter (o : Types.ExtractOptions) : Types.ExtractOptions :=
  {| Types.printableOnly := Types.printableOnly o;
     Types.includeControlChars := Types.includeControlChars o;
     Types.filter := None;
     Types.outputFormat := Types.outputFormat o |}.

(** The order a comparator induces: [x] may stand before [y]. *)
Definition orderedBy {A : Type} (cmp : A -> A -> Z) (x y : A) : Prop :=
  (cmp x y <= 0)%Z.

(** Two records in ascending order of code point. *)
Definition ascending (a b : Types.FontGlyph) : Prop :=
  Types.unicode a <= Types.unicode b.

(** *** The classification policy as the specification words it *)

(** The thirteen enumerated blocks. *)
Definition inListedRanges (u : N) : bool :=
  ((0x20 <=? u) && (u <=? 0x7E))            (* Basic Latin printable *)
  || ((0xA0 <=? u) && (u <=? 0xFF))         (* Latin-1 Supplement *)
  || ((0x100 <=? u) && (u <=? 0x17F))       (* Latin Extended-A *)
  || ((0x180 <=? u) && (u <=? 0x24F))       (* Latin Extended-B *)
  || ((0x370 <=? u) && (u <=? 0x3FF))       (* Greek *)
  || ((0x400 <=? u) && (u <=? 0x4FF))       (* Cyrillic *)
  || ((0x3040 <=? u) && (u <=? 0x309F))     (* Hiragana *)
  || ((0x30A0 <=? u) && (u <=? 0x30FF))     (* Katakana *)
  || ((0xAC00 <=? u) && (u <=? 0xD7AF))     (* Hangul Syllables *)
  || ((0x4E00 <=? u) && (u <=? 0x9FFF))     (* CJK Unified Ideographs *)
  || ((0x3400 <=? u) && (u <=? 0x4DBF))     (* CJK Extension A *)
  || ((0x20000 <=? u) && (u <=? 0x2A6DF))   (* CJK Extension B *)
  || ((0x1F300 <=? u) && (u <=? 0x1F9FF)).  (* Emoji / Symbols *)

(** The rendered form of a code point: the character it converts to. *)
Definition rendered (u : N) : jsstring := default [] (fromCodePoint u).

(** Listed block, or the fallback: above U+001F, outside the surrogate
    range, and with a rendered form that is not empty or whitespace-only
    (the space itself always counts). *)
Definition isPrintable_spec (u : N) : bool :=
  inListedRanges u
  || ((0x1F <? u) && negb (isSurrogate u)
      && (negb (isEmpty (trim (rendered u))) || (u =? 0x20))).

End Props.

(* ===================================================================== *)
(** ** Vocabulary of the further properties *)
(* ===================================================================== *)

Module Further.
Import JS Props.

(** The code points of a glyph list that [String.fromCodePoint] rejects, in
    glyph order. *)
Definition unconvertible (gs : list opentype.Glyph) : list N :=
  List.flat_map
    (fun g => match opentype.unicode g with
              | Some u => if 0x10FFFF <? u then [u] else []
              | None => []
              end) gs.

(** The same output format with every filter off. *)
Definition unfiltered (o : Types.ExtractOptions) : Types.ExtractOptions :=
  {| Types.printableOnly := Some false;
     Types.includeControlChars := Some true;
     Types.filter := None;
     Types.outputFormat := Types.outputFormat o |}.

(** The verdict of the three filters of [o] on a record. *)
Definition passesOptions (o : Types.ExtractOptions) (r : Types.FontGlyph) : bool :=
  passes (default true (Types.printableOnly o))
    (default false (Types.includeControlChars o)) (Types.filter o)
    (Types.char r) (Types.unicode r).

(** The font with one more glyph at the end of its glyph table. *)
Definition appendGlyph (f : opentype.Font) (g : opentype.Glyph) : opentype.Font :=
  {| opentype.names := opentype.names f;
     opentype.glyphs := opentype.glyphs f ++ [g] |}.

(** A name-table entry without a usable English string. *)
Definition noEnglish (e : opentype.LocalizedName) : Prop :=
  opentype.en e = None \/ opentype.en e = Some [].


(** Whether some glyph of the font carries the first code point of [c]. *)
Definition covers (f : opentype.Font) (c : jsstring) : bool :=
  match codePointAt0 c with
  | Some u =>
      List.existsb (fun g => bool_decide (opentype.unicode g = Some u))
        (opentype.glyphs f)
  | None => false
  end.

(** One element of the string iterator: one code unit, or a high surrogate
    followed by a low one. *)
Definition isCharacter (c : jsstring) : Prop :=
  (exists a, c = [a])
  \/ (exists hi lo, c = [hi; lo]
                    /\ isHighSurrogate hi = true /\ isLowSurrogate lo = true).

(** The state in which the scanning loop of [extractTextFromFont] ends. *)
Definition finalScan (f : opentype.Font) (o : Types.ExtractOptions)
    : FontExtractor.ScanState :=
  FontExtractor.scanLoop (default true (Types.printableOnly o))
    (default false (Types.includeControlChars o)) (Types.filter o) 0
    (opentype.glyphs f)
    {| FontExtractor.glyphs := []; FontExtractor.textSet := ∅;
       FontExtractor.console := [] |}.

(** U+20000 twice, and U+20001, whose character starts with the same high
    surrogate D840. *)
Definition sharedHighSurrogate : opentype.Font :=
  Samples.fontOf [ Samples.glyphAt 0x20001 "u20001"; Samples.glyphAt 0x20000 "u20000";
                   Samples.glyphAt 0x20000 "u20000.alt" ].

(** A font whose only glyph has an empty name and no path. *)
Definition unnamed : opentype.Font :=
  Samples.fontOf [ {| opentype.unicode := Some 0x41; opentype.name := Some [];
                      opentype.path := None |} ].

(** A font with glyphs for A (twice, under different names) and B. *)
Definition twoNames : opentype.Font :=
  Samples.fontOf [ Samples.glyphAt 0x41 "A"; Samples.glyphAt 0x42 "B";
                   Samples.glyphAt 0x41 "A.alt" ].

(** A font with one code point no string can hold. *)
Definition outOfRange : opentype.Font :=
  Samples.fontOf [ Samples.glyphAt 0x41 "A"; Samples.glyphAt 0x110000 "bad" ].

End Further.

(* ===================================================================== *)
(** ** UTF-16 facts *)
(* ===================================================================== *)

(** Settles the comparisons of the goal that the hypotheses decide. *)
Ltac settle_comparisons :=
  repeat match goal with
         | |- context [N.leb ?a ?b] =>
             first [ rewrite (proj2 (N.leb_le a b)) by lia
                   | rewrite (proj2 (N.leb_gt a b)) by lia ]
         | |- context [N.ltb ?a ?b] =>
             first [ rewrite (proj2 (N.ltb_lt a b)) by lia
                   | rewrite (proj2 (N.ltb_ge a b)) by lia ]
         | |- context [N.eqb ?a ?b] =>
             first [ rewrite (proj2 (N.eqb_eq a b)) by lia
                   | rewrite (proj2 (N.eqb_neq a b)) by lia ]
         end.

Section Utf16.
Import JS Props.

Lemma toChar_cases (u : N) (c : jsstring) :
  toChar u = Some c ->
  (u <= 0xFFFF /\ c = [u]) \/
  (0xFFFF < u /\ u <= 0x10FFFF /\ c = [highSurrogate u; lowSurrogate u]).
Proof.
  unfold toChar, fromCodePoint, fromCharCode.
  destruct (N.leb_spec u 0xFFFF) as [Hle | Hgt].
  - intros [= <-]. left. split; [exact Hle |].
    rewrite N.mod_small by lia. reflexivity.
  - destruct (N.ltb_spec 0x10FFFF u) as [Hbig | Hok]; [discriminate |].
    intros [= <-]. right. repeat split; lia.
Qed.

Lemma highSurrogate_range (u : N) :
  0xFFFF < u -> u <= 0x10FFFF -> isHighSurrogate (highSurrogate u) = true.
Proof.
  intros Hlo Hhi. unfold isHighSurrogate, highSurrogate.
  assert ((u - 0x10000) / 0x400 <= 0x3FF) as Hq.
  { apply N.lt_succ_r. apply N.Div0.div_lt_upper_bound; lia. }
  revert Hq. generalize ((u - 0x10000) / 0x400). intros q Hq.
  apply andb_true_intro. split; apply N.leb_le; lia.
Qed.

Lemma lowSurrogate_range (u : N) : isLowSurrogate (lowSurrogate u) = true.
Proof.
  unfold isLowSurrogate, lowSurrogate.
  pose proof (N.mod_upper_bound (u - 0x10000) 0x400) as Hm.
  revert Hm. generalize ((u - 0x10000) mod 0x400). intros m Hm.
  apply andb_true_intro. split; apply N.leb_le; lia.
Qed.

Lemma combine_surrogates (u : N) :
  0xFFFF < u -> combineSurrogates (highSurrogate u) (lowSurrogate u) = u.
Proof.
  intros Hlo. unfold combineSurrogates, highSurrogate, lowSurrogate.
  pose proof (N.div_mod (u - 0x10000) 0x400) as Hdm.
  revert Hdm. generalize ((u - 0x10000) / 0x400) ((u - 0x10000) mod 0x400).
  intros q m Hdm. lia.
Qed.

Lemma toChar_fromCodePoint (u : N) : toChar u = fromCodePoint u.
Proof.
  unfold toChar, fromCodePoint, fromCharCode.
  destruct (N.leb_spec u 0xFFFF) as [Hle | Hgt]; [| reflexivity].
  destruct (N.ltb_spec 0x10FFFF u); [lia |].
  rewrite N.mod_small by lia. reflexivity.
Qed.

Lemma codePointAt0_toChar (u : N) (c : jsstring) :
  toChar u = Some c -> codePointAt0 c = Some u.
Proof.
  intros H. destruct (toChar_cases u c H) as [[_ ->] | (Hlo & Hhi & ->)]; simpl.
  - destruct (isHighSurrogate u); reflexivity.
  - rewrite highSurrogate_range, lowSurrogate_range, combine_surrogates by lia.
    reflexivity.
Qed.

Lemma arrayFrom_toChar (u : N) (c : jsstring) :
  toChar u = Some c -> arrayFrom c = [c].
Proof.
  intros H. destruct (toChar_cases u c H) as [[_ ->] | (Hlo & Hhi & ->)]; simpl.
  - reflexivity.
  - rewrite highSurrogate_range, lowSurrogate_range by lia. reflexivity.
Qed.

Lemma toChar_inj (u1 u2 : N) (c : jsstring) :
  toChar u1 = Some c -> toChar u2 = Some c -> u1 = u2.
Proof.
  intros H1 H2. apply codePointAt0_toChar in H1, H2. congruence.
Qed.

Lemma toChar_nonempty (u : N) (c : jsstring) : toChar u = Some c -> c <> [].
Proof.
  intros H. destruct (toChar_cases u c H) as [[_ ->] | (_ & _ & ->)]; discriminate.
Qed.

Lemma scalar_not_high (u : N) :
  isScalar u = true -> u <= 0xFFFF -> isHighSurrogate u = false.
Proof.
  unfold isScalar, isSurrogate, isHighSurrogate. intros H _.
  apply andb_prop in H as [_ H]. apply negb_true_iff in H.
  destruct (N.leb_spec 0xD800 u); simpl in *; [| reflexivity].
  apply N.leb_gt in H. apply N.leb_gt. lia.
Qed.

Lemma arrayFrom_scalar_app (u : N) (c s : jsstring) :
  isScalar u = true -> toChar u = Some c -> arrayFrom (c ++ s) = c :: arrayFrom s.
Proof.
  intros Hs H. destruct (toChar_cases u c H) as [[Hle ->] | (Hlo & Hhi & ->)].
  - simpl. rewrite (scalar_not_high u Hs Hle). destruct s; reflexivity.
  - simpl. rewrite highSurrogate_range, lowSurrogate_range by lia. reflexivity.
Qed.

Lemma scalar_toChar (u : N) : isScalar u = true -> toChar u = Some (rendered u).
Proof.
  intros Hs. rewrite toChar_fromCodePoint. unfold rendered, fromCodePoint.
  unfold isScalar in Hs. apply andb_prop in Hs as [Hle _]. apply N.leb_le in Hle.
  destruct (N.ltb_spec 0x10FFFF u); [lia |].
  destruct (u <=? 0xFFFF); reflexivity.
Qed.

Lemma arrayFrom_utf16 (us : list N) :
  Forall (fun u => isScalar u = true) us ->
  arrayFrom (utf16 us) = List.map rendered us.
Proof.
  induction 1 as [| u us Hu _ IH]; [reflexivity |].
  unfold utf16 in *. simpl. fold (rendered u).
  rewrite (arrayFrom_scalar_app u) by (auto using scalar_toChar).
  rewrite IH. reflexivity.
Qed.

(** Induction that follows [arrayFrom]: one element or two at a time. *)
Lemma pair_induction {B : Type} (P : list B -> Prop) :
  P [] -> (forall a, P [a]) ->
  (forall a b l, P l -> P (b :: l) -> P (a :: b :: l)) ->
  forall l, P l.
Proof.
  intros Hnil Hone Hstep l.
  assert (P l /\ forall a, P (a :: l)) as [H _]; [| exact H].
  induction l as [| b l [IH1 IH2]]; [split; [exact Hnil | exact Hone] |].
  split; [apply IH2 |]. intros a. apply Hstep; [exact IH1 | apply IH2].
Qed.

(** The string iterator loses nothing and yields single units or surrogate
    pairs. *)
Lemma arrayFrom_shape (t : jsstring) :
  List.concat (arrayFrom t) = t /\ Forall Further.isCharacter (arrayFrom t).
Proof.
  induction t as [| a | a b l [IHc IHf] [IHc' IHf']] using pair_induction.
  - split; [reflexivity | constructor].
  - split; [reflexivity |]. constructor; [left; eauto | constructor].
  - change (arrayFrom (a :: b :: l))
      with (if isHighSurrogate a && isLowSurrogate b
            then [a; b] :: arrayFrom l else [a] :: arrayFrom (b :: l)).
    destruct (isHighSurrogate a) eqn:Ha; [destruct (isLowSurrogate b) eqn:Hb |];
      cbn [andb].
    + split; [cbn [List.concat app]; rewrite IHc; reflexivity |].
      constructor; [right; exists a, b; auto | exact IHf].
    + split; [cbn [List.concat app]; rewrite IHc'; reflexivity |].
      constructor; [left; eauto | exact IHf'].
    + split; [cbn [List.concat app]; rewrite IHc'; reflexivity |].
      constructor; [left; eauto | exact IHf'].
Qed.

Lemma character_codePoint (c : jsstring) :
  Further.isCharacter c ->
  (exists a, c = [a] /\ codePointAt0 c = Some a)
  \/ (exists hi lo, c = [hi; lo] /\ isHighSurrogate hi = true
                    /\ isLowSurrogate lo = true
                    /\ codePointAt0 c = Some (combineSurrogates hi lo)).
Proof.
  intros [[a ->] | (hi & lo & -> & Hh & Hl)].
  - left. exists a. split; [reflexivity |]. simpl.
    destruct (isHighSurrogate a); reflexivity.
  - right. exists hi, lo. simpl. rewrite Hh, Hl. auto.
Qed.

Lemma codePointAt0_none (c : jsstring) : codePointAt0 c = None -> c = [].
Proof.
  destruct c as [| a [| b c]]; simpl; [reflexivity | |].
  - destruct (isHighSurrogate a); discriminate.
  - destruct (isHighSurrogate a); [destruct (isLowSurrogate b) |]; discriminate.
Qed.

End Utf16.

(* ===================================================================== *)
(** ** The stable sort *)
(* ===================================================================== *)

Section SortFacts.
Import JS Props.
Context {A : Type} (cmp : A -> A -> Z).

Lemma insertSorted_perm (x : A) (l : list A) :
  Permutation (x :: l) (insertSorted cmp x l).
Proof.
  induction l as [| y l IH]; simpl; [reflexivity |].
  destruct (cmp x y <=? 0)%Z; [reflexivity |].
  rewrite perm_swap. apply perm_skip, IH.
Qed.

Lemma sort_perm (l : list A) : Permutation l (sort cmp l).
Proof.
  induction l as [| x l IH]; simpl; [reflexivity |].
  rewrite <- insertSorted_perm. apply perm_skip, IH.
Qed.

(** The comparator orders any two elements one way or the other. *)
Hypothesis cmp_total : forall x y, (0 < cmp x y)%Z -> (cmp y x <= 0)%Z.

Lemma insertSorted_HdRel (a x : A) (l : list A) :
  orderedBy cmp a x -> HdRel (orderedBy cmp) a l -> HdRel (orderedBy cmp) a (insertSorted cmp x l).
Proof.
  unfold orderedBy.
  intros Hax Hal. destruct l as [| y l]; simpl; [constructor; exact Hax |].
  destruct (cmp x y <=? 0)%Z; constructor; [exact Hax |].
  inversion Hal; assumption.
Qed.

Lemma insertSorted_sorted (x : A) (l : list A) :
  Sorted (orderedBy cmp) l -> Sorted (orderedBy cmp) (insertSorted cmp x l).
Proof.
  unfold orderedBy in *.
  induction 1 as [| y l Hs IH Hhd]; simpl.
  - repeat constructor.
  - destruct (Z.leb_spec (cmp x y) 0) as [Hle | Hgt].
    + constructor; [constructor; assumption | constructor; exact Hle].
    + constructor; [exact IH |].
      apply insertSorted_HdRel; [apply cmp_total, Hgt | exact Hhd].
Qed.

Lemma sort_sorted (l : list A) : Sorted (orderedBy cmp) (sort cmp l).
Proof.
  induction l as [| x l IH]; simpl; [constructor |].
  apply insertSorted_sorted, IH.
Qed.

End SortFacts.

Section SortByUnicode.
Import JS Props.

Lemma sort_byUnicode_sorted (l : list Types.FontGlyph) :
  Sorted ascending (sort FontExtractor.byUnicode l).
Proof.
  assert (Sorted (orderedBy FontExtractor.byUnicode)
            (sort FontExtractor.byUnicode l)) as Hs.
  { apply sort_sorted. unfold FontExtractor.byUnicode. intros x y. lia. }
  induction Hs as [| a k _ IH Hhd]; constructor; [exact IH |].
  destruct Hhd as [| b k Hab]; constructor.
  unfold ascending, orderedBy, FontExtractor.byUnicode in *. lia.
Qed.

Lemma Sorted_adjacent {B : Type} (R : B -> B -> Prop) (l : list B) :
  Sorted R l ->
  forall (i : nat) (a b : B),
    nth_error l i = Some a -> nth_error l (S i) = Some b -> R a b.
Proof.
  induction 1 as [| x l _ IH Hhd]; intros i a b Ha Hb.
  - destruct i; discriminate.
  - destruct i as [| i]; simpl in *.
    + injection Ha as <-. destruct Hhd as [| y l Hxy]; [discriminate |].
      simpl in Hb. injection Hb as <-. exact Hxy.
    + eapply IH; eassumption.
Qed.

End SortByUnicode.

(* ===================================================================== *)
(** ** The scanning loop *)
(* ===================================================================== *)

Section Scan.
Import JS Props.
Context (po ic : bool) (flt : option (jsstring -> N -> bool)).

Lemma scanGlyph_step (st : FontExtractor.ScanState) (i : nat) (g : opentype.Glyph) :
  (FontExtractor.glyphs (FontExtractor.scanGlyph po ic flt st i g),
   FontExtractor.textSet (FontExtractor.scanGlyph po ic flt st i g))
  = step po ic flt (FontExtractor.glyphs st, FontExtractor.textSet st) i g.
Proof.
  unfold FontExtractor.scanGlyph, step, candidate.
  destruct (opentype.unicode g) as [u |]; [| reflexivity].
  change (if u <=? 65535 then Some (fromCharCode u) else fromCodePoint u)
    with (toChar u).
  destruct (toChar u) as [c |]; [| reflexivity].
  unfold passes, recordOf, label.
  replace (0 <=? u) with true by (symmetry; apply N.leb_le; lia).
  rewrite (N.ltb_antisym u 31).
  destruct po, ic, (FontExtractor.isPrintableChar c u), (u <=? 31);
    simpl; try reflexivity;
    destruct flt as [f |]; simpl; try destruct (f c u); simpl; try reflexivity;
    destruct (decide (c ∈ FontExtractor.textSet st)); reflexivity.
Qed.

Lemma scanLoop_loop (rest : list opentype.Glyph) (i : nat) (st : FontExtractor.ScanState) :
  (FontExtractor.glyphs (FontExtractor.scanLoop po ic flt i rest st),
   FontExtractor.textSet (FontExtractor.scanLoop po ic flt i rest st))
  = loop po ic flt i rest (FontExtractor.glyphs st, FontExtractor.textSet st).
Proof.
  revert i st. induction rest as [| g rest IH]; intros i st; simpl; [reflexivity |].
  rewrite IH, scanGlyph_step. reflexivity.
Qed.

Lemma scanGlyphSync_step (st : list Types.FontGlyph * gset jsstring) (i : nat)
    (g : opentype.Glyph) :
  FontExtractor.scanGlyphSync po ic flt st i g = step po ic flt st i g.
Proof.
  unfold FontExtractor.scanGlyphSync, step, candidate. destruct st as [gs seen].
  destruct (opentype.unicode g) as [u |]; [| reflexivity].
  change (if u <=? 65535 then Some (fromCharCode u) else fromCodePoint u)
    with (toChar u).
  destruct (toChar u) as [c |]; [| reflexivity].
  unfold passes, recordOf, label.
  replace (0 <=? u) with true by (symmetry; apply N.leb_le; lia).
  rewrite (N.ltb_antisym u 31).
  destruct po, ic, (FontExtractor.isPrintableChar c u), (u <=? 31);
    simpl; try reflexivity;
    destruct flt as [f |]; simpl; try destruct (f c u); simpl; try reflexivity;
    destruct (decide (c ∈ seen)) as [Hin | Hout];
    rewrite ?(bool_decide_eq_true_2 _ Hin), ?(bool_decide_eq_false_2 _ Hout);
    reflexivity.
Qed.

Lemma scanLoopSync_loop (rest : list opentype.Glyph) (i : nat)
    (st : list Types.FontGlyph * gset jsstring) :
  FontExtractor.scanLoopSync po ic flt i rest st = loop po ic flt i rest st.
Proof.
  revert i st. induction rest as [| g rest IH]; intros i st; simpl; [reflexivity |].
  rewrite IH, scanGlyphSync_step. reflexivity.
Qed.

(** What a candidate record says about its glyph. *)
Lemma candidate_inv (i : nat) (g : opentype.Glyph) (r : Types.FontGlyph) :
  candidate po ic flt i g = Some r ->
  opentype.unicode g = Some (Types.unicode r)
  /\ toChar (Types.unicode r) = Some (Types.char r)
  /\ passes po ic flt (Types.char r) (Types.unicode r) = true
  /\ r = recordOf i g (Types.unicode r) (Types.char r).
Proof.
  unfold candidate. destruct (opentype.unicode g) as [u |]; [| discriminate].
  destruct (toChar u) as [c |] eqn:Hc; [| discriminate].
  destruct (passes po ic flt c u) eqn:Hp; [| discriminate].
  intros [= <-]. simpl. auto.
Qed.

(** A property of the pair (records, seen) kept by every iteration holds
    when the loop ends. *)
Lemma loop_invariant (P : list Types.FontGlyph * gset jsstring -> Prop)
    (rest : list opentype.Glyph) :
  (forall st j g, In g rest -> P st -> P (step po ic flt st j g)) ->
  forall i st, P st -> P (loop po ic flt i rest st).
Proof.
  induction rest as [| g rest IH]; intros Hstep i st Hst; simpl; [exact Hst |].
  apply IH.
  - intros st' j g' Hin. apply Hstep. right. exact Hin.
  - apply Hstep; [left; reflexivity | exact Hst].
Qed.

Lemma step_seenMatches (st : list Types.FontGlyph * gset jsstring) (j : nat)
    (g : opentype.Glyph) :
  seenMatches st -> seenMatches (step po ic flt st j g).
Proof.
  intros [Hnd Hseen]. unfold step.
  destruct (candidate po ic flt j g) as [r |]; [| split; assumption].
  destruct (decide (Types.char r ∈ st.2)) as [Hin | Hout]; [split; assumption |].
  split; simpl.
  - rewrite List.map_app. simpl.
    apply Permutation_NoDup with (l := Types.char r :: List.map Types.char st.1).
    + apply Permutation_cons_append.
    + constructor; [| exact Hnd]. rewrite <- Hseen. exact Hout.
  - intros c. rewrite List.map_app, in_app_iff, elem_of_union, elem_of_singleton.
    rewrite Hseen. simpl. intuition congruence.
Qed.

Lemma loop_seenMatches (rest : list opentype.Glyph) (i : nat) :
  seenMatches (loop po ic flt i rest ([], ∅)).
Proof.
  apply loop_invariant.
  - intros st j g _. apply step_seenMatches.
  - split; simpl; [constructor |]. intros c. rewrite elem_of_empty. tauto.
Qed.

(** Every record comes from a glyph of the list that passed the filters. *)
Lemma loop_from_candidates (rest : list opentype.Glyph) (i : nat)
    (r : Types.FontGlyph) :
  In r (loop po ic flt i rest ([], ∅)).1 ->
  exists j g, In g rest /\ candidate po ic flt j g = Some r.
Proof.
  revert r.
  apply (loop_invariant
           (fun st => forall r, In r st.1 ->
                      exists j g, In g rest /\ candidate po ic flt j g = Some r)).
  - intros st j g Hg IH r. unfold step.
    destruct (candidate po ic flt j g) as [r' |] eqn:Hc; [| apply IH].
    destruct (decide (Types.char r' ∈ st.2)); [apply IH |].
    simpl. rewrite in_app_iff. intros [Hin | [<- | []]]; [apply IH, Hin |].
    exists j, g. auto.
  - intros r [].
Qed.

Lemma passes_split (c : jsstring) (u : N) :
  passes po ic flt c u
  = passes po ic None c u && match flt with Some k => k c u | None => true end.
Proof. unfold passes. rewrite andb_true_r. reflexivity. Qed.

End Scan.

Section ScanWithFilter.
Import JS Props.
Context (po ic : bool) (k : jsstring -> N -> bool).

Lemma step_filteredView (stF stN : list Types.FontGlyph * gset jsstring) (j : nat)
    (g : opentype.Glyph) :
  filteredView (onRecord k) stF stN ->
  filteredView (onRecord k) (step po ic (Some k) stF j g) (step po ic None stN j g).
Proof.
  intros (Hf & HsF & HsN & Hch).
  assert (HsF' := step_seenMatches po ic (Some k) stF j g HsF).
  assert (HsN' := step_seenMatches po ic None stN j g HsN).
  unfold filteredView. split; [| split; [exact HsF' | split; [exact HsN' |]]].
  - clear HsF' HsN'. unfold step, candidate.
    destruct (opentype.unicode g) as [u |]; [| exact Hf].
    destruct (toChar u) as [c |] eqn:Hc; [| exact Hf].
    rewrite (passes_split po ic (Some k) c u).
    destruct (passes po ic None c u); simpl; [| exact Hf].
    destruct HsF as [_ HseenF]. destruct HsN as [_ HseenN].
    destruct (k c u) eqn:Hk; simpl.
    + destruct (decide (c ∈ stF.2)) as [HinF | HoutF];
        destruct (decide (c ∈ stN.2)) as [HinN | HoutN]; simpl.
      * exact Hf.
      * exfalso. apply HoutN. apply HseenN. apply HseenF in HinF.
        rewrite Hf in HinF. apply in_map_iff in HinF as (r' & Hr' & Hin').
        apply filter_In in Hin' as [Hin' _]. apply in_map_iff. eauto.
      * exfalso. apply HoutF. apply HseenF. apply HseenN in HinN.
        apply in_map_iff in HinN as (r' & Hr' & Hin').
        apply in_map_iff. exists r'. split; [exact Hr' |].
        rewrite Hf. apply filter_In. split; [exact Hin' |].
        pose proof (Hch r' Hin') as Hc'. rewrite Hr' in Hc'.
        unfold onRecord. rewrite Hr', (toChar_inj _ _ _ Hc' Hc). exact Hk.
      * rewrite List.filter_app, Hf. simpl.
        change (onRecord k (recordOf j g u c)) with (k c u). rewrite Hk.
        reflexivity.
    + destruct (decide (c ∈ stN.2)); simpl; [exact Hf |].
      rewrite List.filter_app, <- Hf. simpl.
      change (onRecord k (recordOf j g u c)) with (k c u). rewrite Hk.
      rewrite app_nil_r. reflexivity.
  - clear HsF' HsN'. unfold step.
    destruct (candidate po ic None j g) as [r |] eqn:Hcand; [| exact Hch].
    destruct (decide (Types.char r ∈ stN.2)); [exact Hch |].
    simpl. intros r'. rewrite in_app_iff. intros [Hin | [<- | []]]; [apply Hch, Hin |].
    apply (candidate_inv po ic None j g r Hcand).
Qed.

Lemma loop_filteredView (rest : list opentype.Glyph) (i : nat)
    (stF stN : list Types.FontGlyph * gset jsstring) :
  filteredView (onRecord k) stF stN ->
  filteredView (onRecord k) (loop po ic (Some k) i rest stF) (loop po ic None i rest stN).
Proof.
  revert i stF stN. induction rest as [| g rest IH]; intros i stF stN H; simpl.
  - exact H.
  - apply IH, step_filteredView, H.
Qed.

End ScanWithFilter.

(* ===================================================================== *)
(** ** The inventory *)
(* ===================================================================== *)

Section Inventory.
Import JS Props.

Lemma join_nil (xs : list jsstring) : join [] xs = List.concat xs.
Proof.
  induction xs as [| x xs IH]; [reflexivity |].
  destruct xs as [| y xs].
  - simpl. rewrite app_nil_r. reflexivity.
  - change (join [] (x :: y :: xs)) with (x ++ [] ++ join [] (y :: xs)).
    rewrite IH. reflexivity.
Qed.

(** The shape of a successful call. *)
Lemma extract_inv (f : opentype.Font) (o : Types.ExtractOptions) (info : Types.FontInfo) :
  FontExtractor.extractTextFromFont f o = Some info ->
  exists meta,
    FontExtractor.metadata f = Some meta
    /\ info = {| Types.familyName := FontExtractor.familyName meta;
                 Types.subfamilyName := FontExtractor.subfamilyName meta;
                 Types.fullName := FontExtractor.fullName meta;
                 Types.postScriptName := FontExtractor.postScriptName meta;
                 Types.glyphCount := length (sort FontExtractor.byUnicode (collected f o));
                 Types.glyphs := sort FontExtractor.byUnicode (collected f o);
                 Types.extractedText :=
                   renderText (default Types.text (Types.outputFormat o))
                     (sort FontExtractor.byUnicode (collected f o)) |}.
Proof.
  unfold FontExtractor.extractTextFromFont, FontExtractor.extractTextFromFont_run.
  destruct (FontExtractor.metadata f) as [meta |]; [| discriminate].
  simpl. intros [= <-]. exists meta. split; [reflexivity |].
  pose proof (scanLoop_loop (default true (Types.printableOnly o))
                (default false (Types.includeControlChars o)) (Types.filter o)
                (opentype.glyphs f) 0
                {| FontExtractor.glyphs := []; FontExtractor.textSet := ∅;
                   FontExtractor.console := [] |}) as Hloop.
  apply (f_equal fst) in Hloop. simpl in Hloop.
  unfold collected. rewrite <- Hloop. unfold renderText.
  destruct (default Types.text (Types.outputFormat o)); reflexivity.
Qed.

(** A call succeeds exactly when the metadata lines do. *)
Lemma extract_succeeds (f : opentype.Font) (o : Types.ExtractOptions) :
  is_Some (FontExtractor.extractTextFromFont f o) <-> is_Some (FontExtractor.metadata f).
Proof.
  unfold FontExtractor.extractTextFromFont, FontExtractor.extractTextFromFont_run.
  destruct (FontExtractor.metadata f); simpl; split; intros [x Hx];
    try discriminate; eauto.
Qed.

(** The metadata lines throw in one situation only: no PostScript name, and
    a full-name entry without a usable English string, on which [replace]
    is then called. *)
Lemma metadata_throws_iff (f : opentype.Font) :
  FontExtractor.metadata f = None
  <-> opentype.postScriptName (opentype.names f) = None
      /\ exists e, opentype.fullName (opentype.names f) = Some e
                   /\ (opentype.en e = None \/ opentype.en e = Some []).
Proof.
  unfold FontExtractor.metadata, FontExtractor.nameOr.
  destruct (opentype.names f) as [fam sub full ps]. simpl.
  split.
  - destruct fam as [[[[| ? ?] |]] |], sub as [[[[| ? ?] |]] |],
      full as [[[[| ? ?] |]] |], ps as [[[[| ? ?] |]] |];
      simpl; try discriminate; intros _; (split; [reflexivity |]);
      eexists; (split; [reflexivity |]); simpl; auto.
  - intros (-> & e & -> & He). destruct e as [en]. simpl in He.
    destruct fam as [[[[| ? ?] |]] |], sub as [[[[| ? ?] |]] |];
      destruct He as [-> | ->]; reflexivity.
Qed.

Lemma collected_sorted_perm (f : opentype.Font) (o : Types.ExtractOptions) :
  Permutation (collected f o) (sort FontExtractor.byUnicode (collected f o)).
Proof. apply sort_perm. Qed.

Lemma collected_NoDup (f : opentype.Font) (o : Types.ExtractOptions) :
  List.NoDup (List.map Types.char (collected f o)).
Proof. unfold collected. apply loop_seenMatches. Qed.

Lemma collected_candidate (f : opentype.Font) (o : Types.ExtractOptions)
    (r : Types.FontGlyph) :
  In r (collected f o) ->
  exists j g, In g (opentype.glyphs f)
    /\ candidate (default true (Types.printableOnly o))
         (default false (Types.includeControlChars o)) (Types.filter o) j g = Some r.
Proof. unfold collected. apply loop_from_candidates. Qed.

End Inventory.

(* ===================================================================== *)
(** ** Properties of the inventory *)
(* ===================================================================== *)

Section InventoryClaims.
Import JS Props.

(** C9.  [extractTextFromFontSync] returns, for every font and options, what
    [extractTextFromFont] resolves with: the same metadata, records, count
    and text, and it throws exactly when the other rejects.  The diagnostic
    the asynchronous variant writes on a failed conversion is its only
    difference. *)
Theorem sync_agrees_with_async (f : opentype.Font) (o : Types.ExtractOptions) :
  FontExtractor.extractTextFromFontSync f o = FontExtractor.extractTextFromFont f o.
Proof.
  unfold FontExtractor.extractTextFromFontSync, FontExtractor.extractTextFromFont,
    FontExtractor.extractTextFromFont_run.
  change (FontExtractor.metadataSync f) with (FontExtractor.metadata f).
  destruct (FontExtractor.metadata f) as [meta |]; [| reflexivity].
  simpl. rewrite scanLoopSync_loop.
  pose proof (scanLoop_loop (default true (Types.printableOnly o))
                (default false (Types.includeControlChars o)) (Types.filter o)
                (opentype.glyphs f) 0
                {| FontExtractor.glyphs := []; FontExtractor.textSet := ∅;
                   FontExtractor.console := [] |}) as Hloop.
  apply (f_equal fst) in Hloop. simpl in Hloop. rewrite Hloop.
  reflexivity.
Qed.

(** C4.  In the inventory of any font under any options, each record's code
    point is at most that of the record after it, and no two records carry
    the same character. *)
Theorem glyphs_sorted_and_distinct (f : opentype.Font) (o : Types.ExtractOptions)
    (info : Types.FontInfo) :
  FontExtractor.extractTextFromFont f o = Some info ->
  (forall (i : nat) (a b : Types.FontGlyph),
      nth_error (Types.glyphs info) i = Some a ->
      nth_error (Types.glyphs info) (S i) = Some b ->
      Types.unicode a <= Types.unicode b)
  /\ List.NoDup (List.map Types.char (Types.glyphs info)).
Proof.
  intros H. destruct (extract_inv f o info H) as (meta & _ & ->). simpl. split.
  - intros i a b. apply (Sorted_adjacent ascending). apply sort_byUnicode_sorted.
  - eapply Permutation_NoDup; [| apply collected_NoDup].
    apply Permutation_map, collected_sorted_perm.
Qed.

Lemma glyphs_sorted_and_distinct_witness :
  exists info,
    FontExtractor.extractTextFromFont Samples.threeScripts Samples.defaults = Some info
    /\ List.map Types.unicode (Types.glyphs info) = [0x41; 0x4E2D; 0x1F600]
    /\ ((forall (i : nat) (a b : Types.FontGlyph),
           nth_error (Types.glyphs info) i = Some a ->
           nth_error (Types.glyphs info) (S i) = Some b ->
           Types.unicode a <= Types.unicode b)
        /\ List.NoDup (List.map Types.char (Types.glyphs info))).
Proof.
  eexists. split; [reflexivity |]. split; [reflexivity |].
  apply (glyphs_sorted_and_distinct Samples.threeScripts Samples.defaults).
  reflexivity.
Defined.

(** C1, as amended.  The records, their count and the metadata do not depend
    on [outputFormat]: under any other format the call succeeds with the
    same ones.  [extractedText] is the concatenation of the recorded
    characters in sorted order when the format is [text] or left unset;
    under [json] and [array] it is the JSON rendering the [switch] selects. *)
Theorem extractedText_by_format (f : opentype.Font) (o : Types.ExtractOptions)
    (info : Types.FontInfo) :
  FontExtractor.extractTextFromFont f o = Some info ->
  (default Types.text (Types.outputFormat o) = Types.text ->
   Types.extractedText info = List.concat (List.map Types.char (Types.glyphs info)))
  /\ Types.extractedText info
     = renderText (default Types.text (Types.outputFormat o)) (Types.glyphs info)
  /\ forall fmt : option Types.OutputFormat,
       exists info',
         FontExtractor.extractTextFromFont f (setFormat fmt o) = Some info'
         /\ Types.glyphs info' = Types.glyphs info
         /\ Types.glyphCount info' = Types.glyphCount info
         /\ Types.familyName info' = Types.familyName info
         /\ Types.subfamilyName info' = Types.subfamilyName info
         /\ Types.fullName info' = Types.fullName info
         /\ Types.postScriptName info' = Types.postScriptName info.
Proof.
  intros H. destruct (extract_inv f o info H) as (meta & Hmeta & ->). simpl.
  split; [| split].
  - intros ->. simpl. apply join_nil.
  - reflexivity.
  - intros fmt.
    destruct (FontExtractor.extractTextFromFont f (setFormat fmt o)) as [info' |] eqn:H'.
    + exists info'. split; [reflexivity |].
      destruct (extract_inv _ _ _ H') as (meta' & Hmeta' & ->).
      rewrite Hmeta in Hmeta'. injection Hmeta' as <-. simpl.
      repeat split; reflexivity.
    + exfalso. assert (is_Some (FontExtractor.extractTextFromFont f (setFormat fmt o))) as [x Hx].
      { apply extract_succeeds. eauto. }
      congruence.
Qed.

Lemma extractedText_by_format_witness :
  exists info,
    FontExtractor.extractTextFromFont Samples.threeScripts Samples.defaults = Some info
    /\ Types.extractedText info = [0x41; 0x4E2D; 0xD83D; 0xDE00]
    /\ ((default Types.text (Types.outputFormat Samples.defaults) = Types.text ->
         Types.extractedText info = List.concat (List.map Types.char (Types.glyphs info)))
        /\ Types.extractedText info
           = renderText (default Types.text (Types.outputFormat Samples.defaults))
               (Types.glyphs info)
        /\ forall fmt : option Types.OutputFormat,
             exists info',
               FontExtractor.extractTextFromFont Samples.threeScripts
                 (setFormat fmt Samples.defaults) = Some info'
               /\ Types.glyphs info' = Types.glyphs info
               /\ Types.glyphCount info' = Types.glyphCount info
               /\ Types.familyName info' = Types.familyName info
               /\ Types.subfamilyName info' = Types.subfamilyName info
               /\ Types.fullName info' = Types.fullName info
               /\ Types.postScriptName info' = Types.postScriptName info).
Proof.
  eexists. split; [reflexivity |]. split; [reflexivity |].
  apply (extractedText_by_format Samples.threeScripts Samples.defaults).
  reflexivity.
Defined.

(** C1 as stated fails: with [outputFormat] set to [array] the text of the
    three-glyph font is a JSON array of quoted characters, one per line
    between brackets, not the concatenation of its characters. *)
Lemma extractedText_array_not_concat :
  exists info,
    FontExtractor.extractTextFromFont Samples.threeScripts
      (Samples.withFormat Types.array) = Some info
    /\ Types.extractedText info
       = lit "[" ++ [0x0A] ++ lit "  " ++ [0x22; 0x41; 0x22] ++ lit "," ++ [0x0A]
         ++ lit "  " ++ [0x22; 0x4E2D; 0x22] ++ lit "," ++ [0x0A]
         ++ lit "  " ++ [0x22; 0xD83D; 0xDE00; 0x22] ++ [0x0A] ++ lit "]"
    /\ List.concat (List.map Types.char (Types.glyphs info))
       = [0x41; 0x4E2D; 0xD83D; 0xDE00]
    /\ Types.extractedText info
       <> List.concat (List.map Types.char (Types.glyphs info)).
Proof.
  eexists. split; [reflexivity |]. split; [reflexivity |]. split; [reflexivity |].
  discriminate.
Qed.

End InventoryClaims.

(* ===================================================================== *)
(** ** Sorting and the custom filter commute *)
(* ===================================================================== *)

Section SortFilter.
Import JS Props.
Context (K : Types.FontGlyph -> bool).

Lemma insertSorted_head (x : Types.FontGlyph) (l : list Types.FontGlyph) :
  Forall (ascending x) l -> insertSorted FontExtractor.byUnicode x l = x :: l.
Proof.
  intros H. destruct H as [| y l Hxy _]; [reflexivity |]. simpl.
  destruct (Z.leb_spec (FontExtractor.byUnicode x y) 0) as [_ | Hgt]; [reflexivity |].
  unfold ascending, FontExtractor.byUnicode in *. lia.
Qed.

Lemma sort_byUnicode_strongly (l : list Types.FontGlyph) :
  StronglySorted ascending (sort FontExtractor.byUnicode l).
Proof.
  apply Sorted_StronglySorted; [| apply sort_byUnicode_sorted].
  intros a b c. unfold ascending. lia.
Qed.

Lemma filter_insertSorted (x : Types.FontGlyph) (l : list Types.FontGlyph) :
  StronglySorted ascending l ->
  List.filter K (insertSorted FontExtractor.byUnicode x l)
  = if K x then insertSorted FontExtractor.byUnicode x (List.filter K l)
    else List.filter K l.
Proof.
  induction 1 as [| y l Hss IH Hall].
  - simpl. destruct (K x); reflexivity.
  - cbn [insertSorted].
    destruct (Z.leb_spec (FontExtractor.byUnicode x y) 0) as [Hle | Hgt].
    + cbn [List.filter]. destruct (K x); [| reflexivity].
      symmetry. apply insertSorted_head.
      apply List.Forall_forall. intros z Hz.
      assert (In z (y :: l)) as [<- | Hzl].
      { destruct (K y); [destruct Hz as [<- | Hz]; [left; reflexivity | right] |
                         right];
          apply filter_In in Hz; tauto. }
      * unfold ascending, FontExtractor.byUnicode in *. lia.
      * rewrite List.Forall_forall in Hall. specialize (Hall z Hzl).
        unfold ascending, FontExtractor.byUnicode in *. lia.
    + cbn [List.filter]. rewrite IH.
      destruct (K y), (K x); try reflexivity.
      cbn [insertSorted].
      destruct (Z.leb_spec (FontExtractor.byUnicode x y) 0); [lia | reflexivity].
Qed.

Lemma filter_sort (l : list Types.FontGlyph) :
  List.filter K (sort FontExtractor.byUnicode l)
  = sort FontExtractor.byUnicode (List.filter K l).
Proof.
  induction l as [| x l IH]; [reflexivity |].
  change (sort FontExtractor.byUnicode (x :: l))
    with (insertSorted FontExtractor.byUnicode x (sort FontExtractor.byUnicode l)).
  rewrite filter_insertSorted by apply sort_byUnicode_strongly.
  rewrite IH. simpl. destruct (K x); reflexivity.
Qed.

End SortFilter.

Section FilterClaims.
Import JS Props.

Lemma collected_dropFilter (f : opentype.Font) (o : Types.ExtractOptions) :
  collected f o = List.filter (keeps o) (collected f (dropFilter o)).
Proof.
  unfold collected, keeps. simpl.
  destruct (Types.filter o) as [k |].
  - apply (loop_filteredView _ _ k (opentype.glyphs f) 0 ([], ∅) ([], ∅)).
    assert (seenMatches ([], ∅)) as Hinit.
    { split; simpl; [constructor |]. intros c. rewrite elem_of_empty. tauto. }
    split; [reflexivity |]. split; [exact Hinit |]. split; [exact Hinit |].
    intros r [].
  - symmetry. apply forallb_filter_id. apply forallb_forall. reflexivity.
Qed.

(** C3.  With [includeControlChars] off no record of the inventory has a
    code point in [0x00, 0x1F], whatever [printableOnly] and the custom
    filter are.  Every record passed all three filters: it is printable when
    [printableOnly] is on, it is above 0x1F when [includeControlChars] is
    off, and the custom filter accepted it.  The inventory under a custom
    filter is the inventory without it, restricted to the records the
    filter accepts: the filter removes records and adds none. *)
Theorem filters_only_exclude (f : opentype.Font) (o : Types.ExtractOptions)
    (info : Types.FontInfo) :
  FontExtractor.extractTextFromFont f o = Some info ->
  (default false (Types.includeControlChars o) = false ->
   forall r, In r (Types.glyphs info) -> 0x1F < Types.unicode r)
  /\ (forall r, In r (Types.glyphs info) ->
        (default true (Types.printableOnly o) = true ->
         FontExtractor.isPrintableChar (Types.char r) (Types.unicode r) = true)
        /\ (default false (Types.includeControlChars o) = false ->
            0x1F < Types.unicode r)
        /\ keeps o r = true)
  /\ (forall info',
        FontExtractor.extractTextFromFont f (dropFilter o) = Some info' ->
        Types.glyphs info = List.filter (keeps o) (Types.glyphs info')).
Proof.
  intros H. destruct (extract_inv f o info H) as (meta & _ & ->). simpl.
  assert (forall r, In r (sort FontExtractor.byUnicode (collected f o)) ->
            passes (default true (Types.printableOnly o))
              (default false (Types.includeControlChars o)) (Types.filter o)
              (Types.char r) (Types.unicode r) = true) as Hpass.
  { intros r Hr. apply Permutation_in with (l' := collected f o) in Hr;
      [| symmetry; apply collected_sorted_perm].
    apply collected_candidate in Hr as (j & g & _ & Hc).
    apply candidate_inv in Hc. tauto. }
  assert (forall r, In r (sort FontExtractor.byUnicode (collected f o)) ->
            (default true (Types.printableOnly o) = true ->
             FontExtractor.isPrintableChar (Types.char r) (Types.unicode r) = true)
            /\ (default false (Types.includeControlChars o) = false ->
                0x1F < Types.unicode r)
            /\ keeps o r = true) as Hall.
  { intros r Hr. specialize (Hpass r Hr). unfold passes in Hpass.
    apply andb_prop in Hpass as [Hpass Hk]. apply andb_prop in Hpass as [Hp Hc].
    split; [| split].
    - intros E. rewrite E in Hp. exact Hp.
    - intros E. rewrite E in Hc. apply N.ltb_lt. exact Hc.
    - unfold keeps, onRecord. destruct (Types.filter o); [exact Hk | reflexivity]. }
  split; [| split].
  - intros E r Hr. apply (Hall r Hr), E.
  - exact Hall.
  - intros info' H'. destruct (extract_inv _ _ _ H') as (meta' & _ & ->). simpl.
    rewrite filter_sort. f_equal. apply collected_dropFilter.
Qed.

Lemma filters_only_exclude_witness :
  exists info info',
    FontExtractor.extractTextFromFont Samples.withTab Samples.rejectB = Some info
    /\ FontExtractor.extractTextFromFont Samples.withTab (dropFilter Samples.rejectB)
       = Some info'
    /\ List.map Types.unicode (Types.glyphs info) = [0x41]
    /\ List.map Types.unicode (Types.glyphs info') = [0x41; 0x42]
    /\ (forall r, In r (Types.glyphs info) -> 0x1F < Types.unicode r)
    /\ Types.glyphs info = List.filter (keeps Samples.rejectB) (Types.glyphs info').
Proof.
  eexists. eexists. split; [reflexivity |]. split; [reflexivity |].
  split; [reflexivity |]. split; [reflexivity |].
  destruct (filters_only_exclude Samples.withTab Samples.rejectB _ eq_refl)
    as (Hctl & _ & Hdrop).
  split; [exact (Hctl eq_refl) | exact (Hdrop _ eq_refl)].
Defined.

End FilterClaims.

(* ===================================================================== *)
(** ** The coverage checker *)
(* ===================================================================== *)

Section Checker.
Import JS Props.

Lemma checkCharInFont_fields (f : opentype.Font) (s : jsstring) :
  FontChecker.char (FontChecker.checkCharInFont f s) = s
  /\ FontChecker.unicode (FontChecker.checkCharInFont f s) = FontChecker.unicodeOf s
  /\ FontChecker.exists_ (FontChecker.checkCharInFont f s)
     = (FontChecker.findGlyph (FontChecker.unicodeOf s) 0 (opentype.glyphs f)).1
  /\ FontChecker.glyphName (FontChecker.checkCharInFont f s)
     = (FontChecker.findGlyph (FontChecker.unicodeOf s) 0 (opentype.glyphs f)).2.
Proof.
  unfold FontChecker.checkCharInFont.
  destruct (FontChecker.findGlyph _ 0 (opentype.glyphs f)) as [e n]. simpl. auto.
Qed.

Lemma findGlyph_found (u : N) (gs : list opentype.Glyph) (i : nat) :
  hasGlyph gs u -> (FontChecker.findGlyph (Num u) i gs).1 = true.
Proof.
  revert i. induction gs as [| g gs IH]; intros i (g' & Hin & Hu).
  - destruct Hin.
  - simpl. destruct (FontChecker.strictEq (opentype.unicode g) (Num u)) eqn:E;
      [reflexivity |].
    apply IH. exists g'. split; [| exact Hu].
    destruct Hin as [-> | Hin]; [| exact Hin].
    rewrite Hu in E. simpl in E. rewrite N.eqb_refl in E. discriminate.
Qed.

Lemma findGlyph_absent (u : N) (gs : list opentype.Glyph) (i : nat) :
  (FontChecker.findGlyph (Num u) i gs).1 = true -> hasGlyph gs u.
Proof.
  revert i. induction gs as [| g gs IH]; intros i; simpl; [discriminate |].
  destruct (FontChecker.strictEq (opentype.unicode g) (Num u)) eqn:E.
  - intros _. exists g. split; [left; reflexivity |].
    unfold FontChecker.strictEq in E. destruct (opentype.unicode g) as [a |];
      [| discriminate].
    apply N.eqb_eq in E. congruence.
  - intros H. destruct (IH _ H) as (g' & Hin & Hu). exists g'. split; [right |]; auto.
Qed.

Lemma unicodeOf_toChar (u : N) (c : jsstring) :
  toChar u = Some c -> FontChecker.unicodeOf c = Num u.
Proof.
  intros H. unfold FontChecker.unicodeOf. rewrite (codePointAt0_toChar u c H).
  reflexivity.
Qed.

(** The map holds a code point exactly when it held it before or a glyph
    of the list carries it. *)
Lemma fillMap_lookup (gs : list opentype.Glyph) (i : nat)
    (m : gmap N FontChecker.GlyphInfo) (u : N) :
  is_Some (FontChecker.fillMap i gs m !! u) <-> is_Some (m !! u) \/ hasGlyph gs u.
Proof.
  revert i m. induction gs as [| g gs IH]; intros i m; simpl.
  - split; [auto |]. intros [H | (g & [] & _)]. exact H.
  - rewrite IH. unfold hasGlyph. destruct (opentype.unicode g) as [a |] eqn:Ha.
    + rewrite lookup_insert_is_Some. split.
      * intros [[-> | [_ H]] | (g' & Hin & Hu)].
        -- right. exists g. split; [left; reflexivity | exact Ha].
        -- left. exact H.
        -- right. exists g'. split; [right; exact Hin | exact Hu].
      * intros [H | (g' & [<- | Hin] & Hu)].
        -- destruct (decide (a = u)); auto.
        -- left. left. congruence.
        -- right. exists g'. auto.
    + split.
      * intros [H | (g' & Hin & Hu)]; [left; exact H |].
        right. exists g'. split; [right; exact Hin | exact Hu].
      * intros [H | (g' & [<- | Hin] & Hu)]; [auto | congruence |].
        right. exists g'. auto.
Qed.

Lemma fold_checkOne (m : gmap N FontChecker.GlyphInfo) (cs : list jsstring)
    (acc : list FontChecker.CharCheckResult) (miss : list jsstring) :
  List.fold_left (FontChecker.checkOne m) cs (acc, miss)
  = (acc ++ List.map (resultOf m) cs,
     miss ++ List.map FontChecker.char
               (List.filter isMissing (List.map (resultOf m) cs))).
Proof.
  revert acc miss. induction cs as [| c cs IH]; intros acc miss; simpl.
  - rewrite !app_nil_r. reflexivity.
  - rewrite IH. fold (resultOf m c). unfold isMissing at 2.
    change (FontChecker.exists_ (resultOf m c))
      with (match FontChecker.mapGet m (FontChecker.unicodeOf c) with
            | Some _ => true | None => false end).
    destruct (FontChecker.mapGet m (FontChecker.unicodeOf c)); simpl;
      rewrite <- ?app_assoc; reflexivity.
Qed.

(** [checkTextInFont] in closed form. *)
Lemma checkTextInFont_eq (f : opentype.Font) (t : jsstring) :
  let m := FontChecker.fillMap 0 (opentype.glyphs f) ∅ in
  let entries := List.map (resultOf m) (arrayFrom t) in
  let missing := List.map FontChecker.char (List.filter isMissing entries) in
  FontChecker.checkTextInFont f t
  = {| FontChecker.text := t;
       FontChecker.chars := entries;
       FontChecker.allExists := Nat.eqb (length missing) 0;
       FontChecker.missingChars := missing |}.
Proof.
  unfold FontChecker.checkTextInFont. rewrite fold_checkOne. reflexivity.
Qed.

End Checker.

Section CheckerClaims.
Import JS Props.

Lemma missing_nil_iff (entries : list FontChecker.CharCheckResult) :
  List.map FontChecker.char (List.filter isMissing entries) = []
  <-> forall c, In c entries -> FontChecker.exists_ c = true.
Proof.
  induction entries as [| e entries IH]; simpl.
  - split; [intros _ c [] | reflexivity].
  - unfold isMissing at 1. destruct (FontChecker.exists_ e) eqn:E; simpl.
    + rewrite IH. split.
      * intros H c [<- | Hc]; auto.
      * intros H c Hc. apply H. right. exact Hc.
    + split; [discriminate |]. intros H.
      specialize (H e (or_introl eq_refl)). congruence.
Qed.

Lemma covers_exists (f : opentype.Font) (c : jsstring) :
  FontChecker.exists_ (resultOf (FontChecker.fillMap 0 (opentype.glyphs f) ∅) c)
  = Further.covers f c.
Proof.
  unfold Further.covers, resultOf, FontChecker.unicodeOf. simpl.
  destruct (codePointAt0 c) as [u |] eqn:Hc.
  - simpl. apply Bool.eq_iff_eq_true.
    pose proof (fillMap_lookup (opentype.glyphs f) 0 ∅ u) as Hm.
    rewrite lookup_empty in Hm. rewrite List.existsb_exists. split.
    + intros H.
      destruct (FontChecker.fillMap 0 (opentype.glyphs f) ∅ !! u) eqn:E;
        [| discriminate].
      destruct (proj1 Hm (ex_intro _ _ eq_refl)) as [[x Hx] | (g0 & Hg & Hu)];
        [discriminate Hx |].
      exists g0. split; [exact Hg | apply bool_decide_eq_true_2; exact Hu].
    + intros (g0 & Hg & Hu). apply bool_decide_eq_true_1 in Hu.
      destruct (proj2 Hm (or_intror (ex_intro _ g0 (conj Hg Hu)))) as [x ->].
      reflexivity.
  - rewrite (codePointAt0_none c Hc). reflexivity.
Qed.

Lemma missing_filter (f : opentype.Font) (cs : list jsstring) :
  List.map FontChecker.char
    (List.filter isMissing
       (List.map (resultOf (FontChecker.fillMap 0 (opentype.glyphs f) ∅)) cs))
  = List.filter (fun c => negb (Further.covers f c)) cs.
Proof.
  induction cs as [| c cs IH]; [reflexivity |]. simpl.
  unfold isMissing at 1. rewrite covers_exists.
  destruct (Further.covers f c); simpl; rewrite IH; reflexivity.
Qed.

Lemma none_rejected_iff {B : Type} (p : B -> bool) (l : list B) :
  Nat.eqb (length (List.filter (fun x => negb (p x)) l)) 0 = List.forallb p l.
Proof.
  induction l as [| x l IH]; [reflexivity |]. simpl.
  destruct (p x); simpl; [exact IH | reflexivity].
Qed.

(** C5.  In the result of [checkTextInFont] for any font and any text:
    [allExists] holds exactly when [missingChars] is empty, which is exactly
    when every entry of [chars] exists; [missingChars] is the characters of
    the entries that do not exist, in order and with repetitions; [chars]
    has one entry per character of [Array.from(text)], in order; an entry
    exists exactly when some glyph of the font carries its code point; and
    the empty text gives no entries, [allExists] and no missing
    characters.  Each entry is tied to its own character: its [unicode] is
    the first code point of its [char], and it exists exactly when a glyph
    of the font carries that code point; so [missingChars] is the
    characters of [Array.from(text)] the font does not cover, and
    [allExists] says that it covers them all. *)
Theorem checkText_invariants (f : opentype.Font) (t : jsstring) :
  let r := FontChecker.checkTextInFont f t in
  (FontChecker.allExists r = true <-> FontChecker.missingChars r = [])
  /\ (FontChecker.missingChars r = []
      <-> forall c, In c (FontChecker.chars r) -> FontChecker.exists_ c = true)
  /\ FontChecker.missingChars r
     = List.map FontChecker.char (List.filter isMissing (FontChecker.chars r))
  /\ List.map FontChecker.char (FontChecker.chars r) = arrayFrom t
  /\ length (FontChecker.chars r) = length (arrayFrom t)
  /\ (forall c, In c (FontChecker.chars r) ->
        (FontChecker.exists_ c = true
         <-> exists u, FontChecker.unicode c = Num u /\ hasGlyph (opentype.glyphs f) u))
  /\ FontChecker.text r = t
  /\ FontChecker.chars (FontChecker.checkTextInFont f []) = []
  /\ FontChecker.allExists (FontChecker.checkTextInFont f []) = true
  /\ FontChecker.missingChars (FontChecker.checkTextInFont f []) = []
  /\ (forall e, In e (FontChecker.chars r) ->
        exists u, codePointAt0 (FontChecker.char e) = Some u
                  /\ FontChecker.unicode e = Num u
                  /\ (FontChecker.exists_ e = true <-> hasGlyph (opentype.glyphs f) u))
  /\ List.map FontChecker.exists_ (FontChecker.chars r)
     = List.map (Further.covers f) (arrayFrom t)
  /\ FontChecker.missingChars r
     = List.filter (fun c => negb (Further.covers f c)) (arrayFrom t)
  /\ FontChecker.allExists r = List.forallb (Further.covers f) (arrayFrom t).
Proof.
  rewrite !checkTextInFont_eq. simpl.
  set (m := FontChecker.fillMap 0 (opentype.glyphs f) ∅).
  assert (forall c0 u, FontChecker.unicodeOf c0 = Num u ->
            (match FontChecker.mapGet m (FontChecker.unicodeOf c0) with
             | Some _ => true | None => false end = true
             <-> hasGlyph (opentype.glyphs f) u)) as Hexists.
  { intros c0 u Hu. rewrite Hu. simpl.
    pose proof (fillMap_lookup (opentype.glyphs f) 0 ∅ u) as Hm. fold m in Hm.
    rewrite lookup_empty in Hm. split.
    - intros H. destruct (m !! u) eqn:E; [| discriminate].
      destruct Hm as [Hm _]. destruct Hm as [[x Hx] | Hg];
        [eauto | discriminate Hx | exact Hg].
    - intros Hg. destruct Hm as [_ Hm]. destruct (Hm (or_intror Hg)) as [x ->].
      reflexivity. }
  split.
  { destruct (List.map FontChecker.char _); simpl; split; congruence. }
  split; [apply missing_nil_iff |].
  split; [reflexivity |].
  split; [rewrite List.map_map; simpl; apply List.map_id |].
  split; [apply List.length_map |].
  split.
  { intros c Hc. apply in_map_iff in Hc as (c0 & <- & _). simpl.
    destruct (FontChecker.unicodeOf c0) as [u |] eqn:Hu.
    - rewrite <- Hu, (Hexists c0 u Hu). split.
      + intros Hg. exists u. rewrite Hu. auto.
      + intros (u' & E & Hg). rewrite Hu in E. injection E as <-. exact Hg.
    - simpl. split; [discriminate |]. intros (u & E & _). discriminate. }
  split; [reflexivity |]. split; [reflexivity |]. split; [reflexivity |].
  split; [reflexivity |].
  split.
  { intros e He. apply in_map_iff in He as (c0 & <- & Hc0). simpl.
    destruct (arrayFrom_shape t) as [_ Hshape].
    rewrite List.Forall_forall in Hshape.
    assert (exists u, codePointAt0 c0 = Some u) as [u Hu].
    { destruct (character_codePoint c0 (Hshape c0 Hc0))
        as [(a & _ & Ha) | (hi & lo & _ & _ & _ & Hp)]; eauto. }
    assert (FontChecker.unicodeOf c0 = Num u) as Hn.
    { unfold FontChecker.unicodeOf. rewrite Hu. reflexivity. }
    exists u. split; [exact Hu |]. split; [exact Hn |]. exact (Hexists c0 u Hn). }
  split.
  { rewrite List.map_map. apply List.map_ext. intros c. apply (covers_exists f c). }
  split; [apply missing_filter |].
  unfold m. rewrite missing_filter. apply none_rejected_iff.
Qed.

(** The text A, U+4E2D, X against a font without a glyph for X. *)
Lemma checkText_invariants_witness :
  let r := FontChecker.checkTextInFont Samples.threeScripts [0x41; 0x4E2D; 0x58] in
  FontChecker.allExists r = false
  /\ FontChecker.missingChars r = [[0x58]]
  /\ List.map FontChecker.char (FontChecker.chars r) = [[0x41]; [0x4E2D]; [0x58]]
  /\ List.map FontChecker.unicode (FontChecker.chars r)
     = [Num 0x41; Num 0x4E2D; Num 0x58]
  /\ List.map FontChecker.exists_ (FontChecker.chars r) = [true; true; false]
  /\ FontChecker.missingChars r
     = List.filter (fun c => negb (Further.covers Samples.threeScripts c))
         (arrayFrom [0x41; 0x4E2D; 0x58]).
Proof.
  pose proof (checkText_invariants Samples.threeScripts [0x41; 0x4E2D; 0x58]) as H.
  cbv zeta in H.
  destruct H as (_ & _ & _ & _ & _ & _ & _ & _ & _ & _ & _ & _ & Hmiss & _).
  cbv zeta. split; [reflexivity |]. split; [reflexivity |]. split; [reflexivity |].
  split; [reflexivity |]. split; [reflexivity |]. exact Hmiss.
Defined.

Lemma arrayFrom_head (s c : jsstring) (rest : list jsstring) :
  arrayFrom s = c :: rest ->
  codePointAt0 s = codePointAt0 c /\ is_Some (codePointAt0 c).
Proof.
  destruct s as [| a [| d s]]; simpl; [discriminate | |].
  - intros [= <- _]. simpl. destruct (isHighSurrogate a); eauto.
  - destruct (isHighSurrogate a) eqn:Ha; simpl;
      [destruct (isLowSurrogate d) eqn:Hd |]; intros [= <- _]; simpl;
      rewrite ?Ha, ?Hd; eauto.
Qed.

(** C10.  [checkCharInFont] on a string looks only at the string's first
    code point: the result's [unicode] is that code point, [exists] and
    [glyphName] are those of the check of the first character alone, and
    [char] is the whole input string. *)
Theorem checkChar_uses_first_code_point (f : opentype.Font) (s c : jsstring)
    (rest : list jsstring) :
  arrayFrom s = c :: rest ->
  let r := FontChecker.checkCharInFont f s in
  let r1 := FontChecker.checkCharInFont f c in
  FontChecker.char r = s
  /\ (exists u, codePointAt0 c = Some u /\ FontChecker.unicode r = Num u
                /\ (FontChecker.exists_ r = true <-> hasGlyph (opentype.glyphs f) u))
  /\ FontChecker.unicode r = FontChecker.unicode r1
  /\ FontChecker.exists_ r = FontChecker.exists_ r1
  /\ FontChecker.glyphName r = FontChecker.glyphName r1.
Proof.
  intros H. destruct (arrayFrom_head s c rest H) as [Heq [u Hu]].
  destruct (checkCharInFont_fields f s) as (Hc & Hn & He & Hg).
  destruct (checkCharInFont_fields f c) as (_ & Hn1 & He1 & Hg1).
  assert (FontChecker.unicodeOf s = Num u) as Hs.
  { unfold FontChecker.unicodeOf. rewrite Heq, Hu. reflexivity. }
  assert (FontChecker.unicodeOf c = Num u) as Hc1.
  { unfold FontChecker.unicodeOf. rewrite Hu. reflexivity. }
  simpl. rewrite Hc, Hn, He, Hg, Hn1, He1, Hg1, Hs, Hc1.
  repeat apply conj; try reflexivity.
  exists u. repeat apply conj; try reflexivity; try assumption.
  - apply findGlyph_absent.
  - apply findGlyph_found.
Qed.

Lemma checkChar_uses_first_code_point_witness :
  let r := FontChecker.checkCharInFont Samples.threeScripts (lit "AB") in
  arrayFrom (lit "AB") = [lit "A"; lit "B"]
  /\ FontChecker.char r = lit "AB"
  /\ FontChecker.unicode r = Num 0x41
  /\ FontChecker.exists_ r = true
  /\ FontChecker.exists_ r
     = FontChecker.exists_ (FontChecker.checkCharInFont Samples.threeScripts (lit "A")).
Proof.
  pose proof (checkChar_uses_first_code_point Samples.threeScripts
                (lit "AB") (lit "A") [lit "B"] eq_refl) as H.
  simpl in H. destruct H as (Hc & _ & _ & He & _).
  repeat apply conj; try reflexivity; assumption.
Defined.

End CheckerClaims.

(* ===================================================================== *)
(** ** Code points beyond the Basic Multilingual Plane *)
(* ===================================================================== *)

Section Astral.
Import JS Props.

Lemma collected_toChar (f : opentype.Font) (o : Types.ExtractOptions)
    (r : Types.FontGlyph) :
  In r (sort FontExtractor.byUnicode (collected f o)) ->
  toChar (Types.unicode r) = Some (Types.char r)
  /\ hasGlyph (opentype.glyphs f) (Types.unicode r)
  /\ passes (default true (Types.printableOnly o))
       (default false (Types.includeControlChars o)) (Types.filter o)
       (Types.char r) (Types.unicode r) = true.
Proof.
  intros Hr. apply Permutation_in with (l' := collected f o) in Hr;
    [| symmetry; apply collected_sorted_perm].
  apply collected_candidate in Hr as (j & g & Hg & Hc).
  apply candidate_inv in Hc as (Hu & Hch & Hp & _).
  split; [exact Hch |]. split; [exists g; auto | exact Hp].
Qed.

End Astral.

(* ===================================================================== *)
(** ** Coverage of the extracted text *)
(* ===================================================================== *)

Section Coverage.
Import JS Props.

Lemma isPrintableChar_not_surrogate (c : jsstring) (u : N) :
  FontExtractor.isPrintableChar c u = true -> isSurrogate u = false.
Proof.
  unfold isSurrogate. intros H.
  destruct (N.leb_spec 0xD800 u) as [Hlo |]; [| reflexivity].
  destruct (N.leb_spec u 0xDFFF) as [Hhi |]; [| reflexivity].
  exfalso. revert H. unfold FontExtractor.isPrintableChar.
  settle_comparisons. discriminate.
Qed.

Lemma arrayFrom_concat_chars (l : list Types.FontGlyph) :
  (forall r, In r l ->
     isScalar (Types.unicode r) = true
     /\ toChar (Types.unicode r) = Some (Types.char r)) ->
  arrayFrom (List.concat (List.map Types.char l)) = List.map Types.char l.
Proof.
  induction l as [| r l IH]; intros H; [reflexivity |]. simpl.
  destruct (H r (or_introl eq_refl)) as [Hs Hc].
  rewrite (arrayFrom_scalar_app _ _ _ Hs Hc), IH; [reflexivity |].
  intros r' Hr'. apply H. right. exact Hr'.
Qed.

Lemma toChar_in_range (u : N) (c : jsstring) : toChar u = Some c -> u <= 0x10FFFF.
Proof.
  intros H. destruct (toChar_cases u c H) as [[Hle _] | (_ & Hle & _)]; lia.
Qed.

(** C7, as amended.  For every record of the inventory, [checkCharInFont] on
    the record's character reports that it exists.  When the output format
    is [text] (or unset) and either [printableOnly] is on or no glyph of the
    font is mapped to a surrogate code point, the same holds for every
    character of [extractedText]. *)
Theorem extractedText_is_covered (f : opentype.Font) (o : Types.ExtractOptions)
    (info : Types.FontInfo) :
  FontExtractor.extractTextFromFont f o = Some info ->
  (forall r, In r (Types.glyphs info) ->
     FontChecker.exists_ (FontChecker.checkCharInFont f (Types.char r)) = true)
  /\ (default Types.text (Types.outputFormat o) = Types.text ->
      (default true (Types.printableOnly o) = true
       \/ forall g u, In g (opentype.glyphs f) -> opentype.unicode g = Some u ->
                      isSurrogate u = false) ->
      forall c, In c (arrayFrom (Types.extractedText info)) ->
        FontChecker.exists_ (FontChecker.checkCharInFont f c) = true).
Proof.
  intros H. destruct (extract_inv f o info H) as (meta & _ & ->). simpl.
  assert (forall r, In r (sort FontExtractor.byUnicode (collected f o)) ->
            FontChecker.exists_ (FontChecker.checkCharInFont f (Types.char r)) = true)
    as Hrec.
  { intros r Hr. destruct (collected_toChar f o r Hr) as (Hch & Hg & _).
    destruct (checkCharInFont_fields f (Types.char r)) as (_ & _ & -> & _).
    rewrite (unicodeOf_toChar _ _ Hch). apply findGlyph_found, Hg. }
  split; [exact Hrec |].
  intros -> Hscalar c. simpl. rewrite join_nil, arrayFrom_concat_chars.
  - intros Hc. apply in_map_iff in Hc as (r & <- & Hr). apply Hrec, Hr.
  - intros r Hr. destruct (collected_toChar f o r Hr) as (Hch & (g & Hg & Hu) & Hp).
    split; [| exact Hch].
    unfold isScalar. apply andb_true_intro. split.
    + apply N.leb_le. exact (toChar_in_range _ _ Hch).
    + apply negb_true_iff. destruct Hscalar as [Hpo | Hfont].
      * rewrite Hpo in Hp. unfold passes in Hp. simpl in Hp.
        apply andb_prop in Hp as [Hp _]. apply andb_prop in Hp as [Hp _].
        exact (isPrintableChar_not_surrogate _ _ Hp).
      * exact (Hfont g _ Hg Hu).
Qed.

Lemma extractedText_is_covered_witness :
  exists info,
    FontExtractor.extractTextFromFont Samples.threeScripts Samples.defaults = Some info
    /\ arrayFrom (Types.extractedText info) = [[0x41]; [0x4E2D]; [0xD83D; 0xDE00]]
    /\ forall c, In c (arrayFrom (Types.extractedText info)) ->
         FontChecker.exists_ (FontChecker.checkCharInFont Samples.threeScripts c) = true.
Proof.
  eexists. split; [reflexivity |]. split; [reflexivity |].
  apply (extractedText_is_covered Samples.threeScripts Samples.defaults _ eq_refl).
  - reflexivity.
  - left. reflexivity.
Defined.

(** C7 as stated fails twice.  Under the [array] format [extractedText] is
    JSON and starts with a bracket the font has no glyph for.  Under the
    [text] format with [printableOnly] off, two glyphs mapped to the halves
    of a surrogate pair give a text whose single character is U+1F600, which
    the font does not cover. *)
Lemma extractedText_not_covered :
  (exists info,
     FontExtractor.extractTextFromFont Samples.threeScripts
       (Samples.withFormat Types.array) = Some info
     /\ In (lit "[") (arrayFrom (Types.extractedText info))
     /\ FontChecker.exists_
          (FontChecker.checkCharInFont Samples.threeScripts (lit "[")) = false)
  /\ (exists info,
        FontExtractor.extractTextFromFont Samples.surrogateHalves
          Samples.includeControl = Some info
        /\ Types.extractedText info = [0xD83D; 0xDE00]
        /\ arrayFrom (Types.extractedText info) = [[0xD83D; 0xDE00]]
        /\ FontChecker.unicode
             (FontChecker.checkCharInFont Samples.surrogateHalves [0xD83D; 0xDE00])
           = Num 0x1F600
        /\ FontChecker.exists_
             (FontChecker.checkCharInFont Samples.surrogateHalves [0xD83D; 0xDE00])
           = false).
Proof.
  split.
  - eexists. split; [reflexivity |]. split; [| reflexivity].
    vm_compute. left. reflexivity.
  - eexists. repeat split; reflexivity.
Qed.

End Coverage.

(* ===================================================================== *)
(** ** Duplicate code points *)
(* ===================================================================== *)

Section Duplicates.
Import JS Props.

Lemma loop_app (po ic : bool) (flt : option (jsstring -> N -> bool))
    (pre post : list opentype.Glyph) (i : nat)
    (st : list Types.FontGlyph * gset jsstring) :
  loop po ic flt i (pre ++ post) st
  = loop po ic flt (i + length pre) post (loop po ic flt i pre st).
Proof.
  revert i st. induction pre as [| g pre IH]; intros i st; simpl.
  - rewrite Nat.add_0_r. reflexivity.
  - rewrite IH. f_equal. lia.
Qed.

(** Records are only ever appended. *)
Lemma loop_keeps (po ic : bool) (flt : option (jsstring -> N -> bool))
    (rest : list opentype.Glyph) (i : nat)
    (st : list Types.FontGlyph * gset jsstring) (r : Types.FontGlyph) :
  In r st.1 -> In r (loop po ic flt i rest st).1.
Proof.
  apply (loop_invariant po ic flt (fun st => In r st.1)).
  intros st' j g _ Hin. unfold step.
  destruct (candidate po ic flt j g) as [r' |]; [| exact Hin].
  destruct (decide (Types.char r' ∈ st'.2)); [exact Hin |].
  simpl. apply in_or_app. left. exact Hin.
Qed.

Lemma filter_none {B : Type} (P : B -> bool) (l : list B) :
  (forall y, In y l -> P y = false) -> List.filter P l = [].
Proof.
  induction l as [| x l IH]; intros H; [reflexivity |]. simpl.
  rewrite (H x (or_introl eq_refl)). apply IH. intros y Hy. apply H. right. exact Hy.
Qed.

Lemma filter_char_unique (l : list Types.FontGlyph) (r : Types.FontGlyph) :
  List.NoDup (List.map Types.char l) -> In r l ->
  List.filter (fun r' => bool_decide (Types.char r' = Types.char r)) l = [r].
Proof.
  induction l as [| x l IH]; intros Hnd Hin; [destruct Hin |].
  simpl in Hnd. apply List.NoDup_cons_iff in Hnd as [Hx Hnd]. simpl.
  destruct Hin as [-> | Hin].
  - rewrite bool_decide_eq_true_2 by reflexivity. f_equal.
    apply filter_none. intros y Hy.
    apply bool_decide_eq_false_2. intros E.
    apply Hx. rewrite <- E. apply in_map. exact Hy.
  - rewrite bool_decide_eq_false_2; [apply IH; assumption |].
    intros E. apply Hx. rewrite E. apply in_map. exact Hin.
Qed.

Lemma filter_char_at_most_one (l : list Types.FontGlyph) (c : jsstring) :
  List.NoDup (List.map Types.char l) ->
  (length (List.filter (fun r' => bool_decide (Types.char r' = c)) l) <= 1)%nat.
Proof.
  intros Hnd.
  destruct (List.filter (fun r' => bool_decide (Types.char r' = c)) l) as [| r k] eqn:E;
    [simpl; lia |].
  assert (In r l /\ Types.char r = c) as [Hin <-].
  { assert (In r (List.filter (fun r' => bool_decide (Types.char r' = c)) l)) as H
      by (rewrite E; left; reflexivity).
    apply filter_In in H as [Hin Hc]. apply bool_decide_eq_true_1 in Hc. auto. }
  rewrite (filter_char_unique l r Hnd Hin) in E. injection E as <-. simpl. lia.
Qed.

(** The glyph of lowest index for an included code point is the one the
    scan records. *)
Lemma collected_first (f : opentype.Font) (o : Types.ExtractOptions)
    (i : nat) (g : opentype.Glyph) (u : N) (c : jsstring) :
  nth_error (opentype.glyphs f) i = Some g ->
  opentype.unicode g = Some u ->
  (forall j g', (j < i)%nat -> nth_error (opentype.glyphs f) j = Some g' ->
                opentype.unicode g' <> Some u) ->
  toChar u = Some c ->
  passes (default true (Types.printableOnly o))
    (default false (Types.includeControlChars o)) (Types.filter o) c u = true ->
  In (recordOf i g u c) (collected f o).
Proof.
  intros Hg Hu Hlow Hc Hp. unfold collected.
  set (po := default true (Types.printableOnly o)) in *.
  set (ic := default false (Types.includeControlChars o)) in *.
  set (flt := Types.filter o) in *.
  destruct (nth_error_split _ _ Hg) as (pre & post & Hsplit & Hlen).
  rewrite Hsplit, loop_app. simpl. apply loop_keeps.
  assert (candidate po ic flt (length pre) g = Some (recordOf i g u c)) as Hcand.
  { unfold candidate. rewrite Hu, Hc, Hp, Hlen. reflexivity. }
  unfold step. rewrite Hcand.
  destruct (decide (Types.char (recordOf i g u c) ∈ (loop po ic flt 0 pre ([], ∅)).2))
    as [Hseen | _]; [| simpl; apply in_or_app; right; left; reflexivity].
  exfalso. simpl in Hseen.
  pose proof (loop_seenMatches po ic flt pre 0) as [_ Hm].
  apply Hm in Hseen. apply in_map_iff in Hseen as (r & Hr & Hin).
  apply loop_from_candidates in Hin as (j & g' & Hg' & Hcand').
  apply candidate_inv in Hcand' as (Hu' & Hc' & _).
  rewrite Hr in Hc'. rewrite (toChar_inj _ _ _ Hc' Hc) in Hu'.
  apply In_nth_error in Hg' as [n Hn].
  assert (n < length pre)%nat as Hlt by (apply nth_error_Some; congruence).
  apply (Hlow n g'); [lia | | exact Hu'].
  rewrite Hsplit, nth_error_app1 by exact Hlt. exact Hn.
Qed.

(** C8, as amended.  The inventory never holds two records with the same
    character.  When the glyph of lowest index among those mapped to a code
    point converts to a character and passes the filters, the inventory
    holds exactly one record for that character and for that code point, and
    the record's name and path flag are those of that glyph, however many
    later glyphs share the code point. *)
Theorem first_glyph_wins (f : opentype.Font) (o : Types.ExtractOptions)
    (info : Types.FontInfo) (i : nat) (g : opentype.Glyph) (u : N) (c : jsstring) :
  FontExtractor.extractTextFromFont f o = Some info ->
  nth_error (opentype.glyphs f) i = Some g ->
  opentype.unicode g = Some u ->
  (forall j g', (j < i)%nat -> nth_error (opentype.glyphs f) j = Some g' ->
                opentype.unicode g' <> Some u) ->
  toChar u = Some c ->
  passes (default true (Types.printableOnly o))
    (default false (Types.includeControlChars o)) (Types.filter o) c u = true ->
  List.filter (fun r => bool_decide (Types.char r = c)) (Types.glyphs info)
  = [recordOf i g u c]
  /\ List.filter (fun r => Types.unicode r =? u) (Types.glyphs info)
     = [recordOf i g u c]
  /\ forall c' : jsstring,
       (length (List.filter (fun r => bool_decide (Types.char r = c'))
                  (Types.glyphs info)) <= 1)%nat.
Proof.
  intros H Hg Hu Hlow Hc Hp.
  destruct (extract_inv f o info H) as (meta & _ & ->). simpl.
  assert (List.NoDup (List.map Types.char (sort FontExtractor.byUnicode (collected f o))))
    as Hnd.
  { eapply Permutation_NoDup; [| apply collected_NoDup].
    apply Permutation_map, collected_sorted_perm. }
  assert (In (recordOf i g u c) (sort FontExtractor.byUnicode (collected f o))) as Hin.
  { eapply Permutation_in; [apply collected_sorted_perm |].
    apply collected_first; assumption. }
  assert (List.filter (fun r => bool_decide (Types.char r = c))
            (sort FontExtractor.byUnicode (collected f o)) = [recordOf i g u c]) as Hone.
  { exact (filter_char_unique _ (recordOf i g u c) Hnd Hin). }
  split; [exact Hone |]. split.
  - rewrite <- Hone. apply List.filter_ext_in. intros r Hr.
    destruct (collected_toChar f o r Hr) as (Hch & _ & _).
    destruct (N.eqb_spec (Types.unicode r) u) as [E | E].
    + symmetry. apply bool_decide_eq_true_2. rewrite E in Hch. congruence.
    + symmetry. apply bool_decide_eq_false_2. intros E'. apply E.
      rewrite E' in Hch. exact (toChar_inj _ _ _ Hch Hc).
  - intros c'. apply filter_char_at_most_one, Hnd.
Qed.

Lemma first_glyph_wins_witness :
  exists info,
    FontExtractor.extractTextFromFont Samples.duplicates Samples.defaults = Some info
    /\ List.filter (fun r => bool_decide (Types.char r = [0x41])) (Types.glyphs info)
       = [{| Types.unicode := 0x41; Types.char := [0x41]; Types.name := lit "A";
             Types.hasPath := true |}].
Proof.
  eexists. split; [reflexivity |].
  refine (proj1 (first_glyph_wins Samples.duplicates Samples.defaults _ 1
                   (Samples.glyphAt 0x41 "A") 0x41 [0x41]
                   eq_refl eq_refl eq_refl _ eq_refl eq_refl)).
  intros j g' Hj Hg'. destruct j as [| j]; [| lia].
  injection Hg' as <-. discriminate.
Defined.

(** C8 as stated fails: the tab character has two glyphs, at indices 0 and
    2, and under the default options the inventory holds no record for it,
    since the control-character filter excludes both. *)
Lemma duplicate_control_glyphs_leave_no_record :
  exists info,
    FontExtractor.extractTextFromFont Samples.duplicates Samples.defaults = Some info
    /\ (opentype.unicode <$> nth_error (opentype.glyphs Samples.duplicates) 0)
       = Some (Some 0x09)
    /\ (opentype.unicode <$> nth_error (opentype.glyphs Samples.duplicates) 2)
       = Some (Some 0x09)
    /\ toChar 0x09 = Some [0x09]
    /\ List.filter (fun r => bool_decide (Types.char r = [0x09])) (Types.glyphs info)
       = []
    /\ List.filter (fun r => Types.unicode r =? 0x09) (Types.glyphs info) = [].
Proof.
  eexists. repeat split; reflexivity.
Qed.

End Duplicates.

(* ===================================================================== *)
(** ** The printable-character policy *)
(* ===================================================================== *)

Section Printable.
Import JS Props.

Lemma trim_single (x : N) : isEmpty (trim [x]) = isWhiteSpace x.
Proof.
  unfold trim, trimEnd. simpl. destruct (isWhiteSpace x) eqn:E; simpl.
  - reflexivity.
  - rewrite E. reflexivity.
Qed.

Lemma trim_pair (a b : N) :
  isWhiteSpace a = false -> isWhiteSpace b = false -> trim [a; b] = [a; b].
Proof.
  intros Ha Hb. unfold trim, trimEnd.
  cbn [trimStart]. rewrite Ha. cbn [List.rev app trimStart]. rewrite Hb.
  reflexivity.
Qed.

(** What the code computes: a listed block, or above U+001F, outside the
    surrogate range, and with low sixteen bits that are not a whitespace
    unit (or the space itself). *)
Lemma isPrintableChar_char (c : jsstring) (u : N) :
  FontExtractor.isPrintableChar c u
  = inListedRanges u
    || ((0x1F <? u) && negb (isSurrogate u)
        && (negb (isWhiteSpace (u mod 0x10000)) || (u =? 0x20))).
Proof.
  unfold FontExtractor.isPrintableChar, fromCharCode. rewrite trim_single.
  generalize (negb (isWhiteSpace (u mod 0x10000)) || (u =? 0x20)). intros w.
  unfold inListedRanges, isSurrogate.
  generalize (0x1F <? u). intros above.
  repeat match goal with
         | |- context [(?a <=? u) && (u <=? ?b)] =>
             generalize ((a <=? u) && (u <=? b)); intros ?
         end.
  repeat match goal with
         | |- (if ?b then true else _) = _ =>
             destruct b; simpl; rewrite ?orb_true_r, ?orb_false_r; [reflexivity |]
         end.
  destruct above; simpl; [| reflexivity].
  match goal with |- (if negb ?s then _ else _) = _ => destruct s end; simpl;
    [reflexivity |].
  destruct w; reflexivity.
Qed.

(** On the Basic Multilingual Plane the code is the policy as worded. *)
Lemma isPrintableChar_bmp (c : jsstring) (u : N) :
  u <= 0xFFFF -> FontExtractor.isPrintableChar c u = isPrintable_spec u.
Proof.
  intros Hle. rewrite isPrintableChar_char. unfold isPrintable_spec, rendered, fromCodePoint.
  destruct (N.ltb_spec 0x10FFFF u); [lia |].
  destruct (N.leb_spec u 0xFFFF); [| lia]. simpl default.
  rewrite trim_single, N.mod_small by lia. reflexivity.
Qed.

Lemma surrogate_not_whitespace (x : N) : isSurrogate x = true -> isWhiteSpace x = false.
Proof.
  unfold isSurrogate. intros H. apply andb_prop in H as [Hlo Hhi].
  apply N.leb_le in Hlo, Hhi. unfold isWhiteSpace.
  settle_comparisons. reflexivity.
Qed.

Lemma astral_not_surrogate (u : N) : 0xFFFF < u -> isSurrogate u = false.
Proof. intros H. unfold isSurrogate. settle_comparisons. reflexivity. Qed.

(** Beyond the Basic Multilingual Plane the policy as worded accepts every
    code point: its character is a surrogate pair, never whitespace. *)
Lemma isPrintable_spec_astral (u : N) :
  0xFFFF < u -> u <= 0x10FFFF -> isPrintable_spec u = true.
Proof.
  intros Hlo Hhi. unfold isPrintable_spec.
  apply orb_true_iff. right.
  rewrite (astral_not_surrogate u Hlo).
  destruct (N.ltb_spec 0x1F u); [| lia]. simpl.
  unfold rendered, fromCodePoint.
  destruct (N.ltb_spec 0x10FFFF u); [lia |].
  destruct (N.leb_spec u 0xFFFF); [lia |]. simpl default.
  assert (isWhiteSpace (highSurrogate u) = false) as Hh.
  { apply surrogate_not_whitespace.
    pose proof (highSurrogate_range u Hlo Hhi) as Hr.
    unfold isHighSurrogate in Hr. unfold isSurrogate.
    apply andb_prop in Hr as [Ha Hb]. apply N.leb_le in Ha, Hb.
    apply andb_true_intro. split; apply N.leb_le; lia. }
  assert (isWhiteSpace (lowSurrogate u) = false) as Hl.
  { apply surrogate_not_whitespace.
    pose proof (lowSurrogate_range u) as Hr.
    unfold isLowSurrogate in Hr. unfold isSurrogate.
    apply andb_prop in Hr as [Ha Hb]. apply N.leb_le in Ha, Hb.
    apply andb_true_intro. split; apply N.leb_le; lia. }
  rewrite (trim_pair _ _ Hh Hl). reflexivity.
Qed.

(** Where the code departs from the policy: beyond the Basic Multilingual
    Plane, outside the listed blocks, when the low sixteen bits of the code
    point are a whitespace unit. *)
Lemma isPrintableChar_astral (c : jsstring) (u : N) :
  0xFFFF < u -> u <= 0x10FFFF ->
  FontExtractor.isPrintableChar c u
  = inListedRanges u || negb (isWhiteSpace (u mod 0x10000)).
Proof.
  intros Hlo Hhi. rewrite isPrintableChar_char.
  rewrite (astral_not_surrogate u Hlo).
  destruct (N.ltb_spec 0x1F u); [| lia].
  destruct (N.eqb_spec u 0x20); [lia |].
  cbn [andb negb]. rewrite orb_false_r. reflexivity.
Qed.

(** C2, where the code fails it.  U+12000 is above U+001F, outside the
    surrogate range, and its character, the pair D808 DC00, is not
    whitespace, so the policy as worded classifies it printable.  The code
    tests [String.fromCharCode(0x12000)], which is the en quad U+2000, finds
    it blank and answers false; a font whose only glyph is U+12000 gets an
    empty inventory under the default options. *)
Theorem printable_fallback_truncates :
  fromCodePoint 0x12000 = Some [0xD808; 0xDC00]
  /\ trim [0xD808; 0xDC00] = [0xD808; 0xDC00]
  /\ inListedRanges 0x12000 = false
  /\ isPrintable_spec 0x12000 = true
  /\ fromCharCode 0x12000 = [0x2000]
  /\ trim (fromCharCode 0x12000) = []
  /\ FontExtractor.isPrintableChar [0xD808; 0xDC00] 0x12000 = false
  /\ (Types.glyphs <$> FontExtractor.extractTextFromFont Samples.cuneiform Samples.defaults)
     = Some [].
Proof. repeat split; reflexivity. Qed.

End Printable.

(* ===================================================================== *)
(** ** Further properties of the inventory *)
(* ===================================================================== *)

Section InventoryFurther.
Import JS Props Further.

(** Characters once seen stay seen. *)
Lemma loop_seen_keeps (po ic : bool) (flt : option (jsstring -> N -> bool))
    (rest : list opentype.Glyph) (i : nat)
    (st : list Types.FontGlyph * gset jsstring) (c : jsstring) :
  c ∈ st.2 -> c ∈ (loop po ic flt i rest st).2.
Proof.
  apply (loop_invariant po ic flt (fun st => c ∈ st.2)).
  intros st' j g _ Hin. unfold step.
  destruct (candidate po ic flt j g) as [r |]; [| exact Hin].
  destruct (decide (Types.char r ∈ st'.2)); [exact Hin |].
  simpl. apply elem_of_union. left. exact Hin.
Qed.

(** After the iteration for a glyph that passes the filters, its character
    is in the set of characters seen. *)
Lemma step_sees (po ic : bool) (flt : option (jsstring -> N -> bool))
    (st : list Types.FontGlyph * gset jsstring) (j : nat) (g : opentype.Glyph)
    (u : N) (c : jsstring) :
  opentype.unicode g = Some u -> toChar u = Some c ->
  passes po ic flt c u = true ->
  c ∈ (step po ic flt st j g).2.
Proof.
  intros Hu Hc Hp. unfold step, candidate. rewrite Hu, Hc, Hp. simpl.
  destruct (decide (c ∈ st.2)) as [Hin | _]; [exact Hin |].
  simpl. apply elem_of_union. right. apply elem_of_singleton. reflexivity.
Qed.

Lemma loop_sees (po ic : bool) (flt : option (jsstring -> N -> bool))
    (rest : list opentype.Glyph) (i : nat)
    (st : list Types.FontGlyph * gset jsstring) (g : opentype.Glyph)
    (u : N) (c : jsstring) :
  In g rest -> opentype.unicode g = Some u -> toChar u = Some c ->
  passes po ic flt c u = true ->
  c ∈ (loop po ic flt i rest st).2.
Proof.
  intros Hg Hu Hc Hp. apply in_split in Hg as (pre & post & ->).
  rewrite loop_app. simpl. apply loop_seen_keeps.
  exact (step_sees po ic flt _ _ g u c Hu Hc Hp).
Qed.

Lemma collected_complete (f : opentype.Font) (o : Types.ExtractOptions)
    (g : opentype.Glyph) (u : N) (c : jsstring) :
  In g (opentype.glyphs f) -> opentype.unicode g = Some u -> toChar u = Some c ->
  passes (default true (Types.printableOnly o))
    (default false (Types.includeControlChars o)) (Types.filter o) c u = true ->
  exists r, In r (collected f o) /\ Types.unicode r = u /\ Types.char r = c.
Proof.
  intros Hg Hu Hc Hp.
  pose proof (loop_sees _ _ _ (opentype.glyphs f) 0 ([], ∅) g u c Hg Hu Hc Hp) as Hseen.
  pose proof (loop_seenMatches (default true (Types.printableOnly o))
                (default false (Types.includeControlChars o)) (Types.filter o)
                (opentype.glyphs f) 0) as [_ Hm].
  apply Hm in Hseen. apply in_map_iff in Hseen as (r & Hr & Hin).
  exists r. split; [exact Hin |]. split; [| exact Hr].
  apply collected_candidate in Hin as (j & g' & _ & Hcand).
  apply candidate_inv in Hcand as (_ & Hc' & _).
  rewrite Hr in Hc'. exact (toChar_inj _ _ _ Hc' Hc).
Qed.

(** X1.  Completeness of the inventory: every glyph of the font whose code
    point converts to a character and passes the three filters is
    represented, by a record with that code point and that character. *)
Theorem passing_glyph_is_recorded (f : opentype.Font) (o : Types.ExtractOptions)
    (info : Types.FontInfo) (g : opentype.Glyph) (u : N) (c : jsstring) :
  FontExtractor.extractTextFromFont f o = Some info ->
  In g (opentype.glyphs f) ->
  opentype.unicode g = Some u ->
  toChar u = Some c ->
  passes (default true (Types.printableOnly o))
    (default false (Types.includeControlChars o)) (Types.filter o) c u = true ->
  exists r, In r (Types.glyphs info) /\ Types.unicode r = u /\ Types.char r = c.
Proof.
  intros H Hg Hu Hc Hp. destruct (extract_inv f o info H) as (meta & _ & ->). simpl.
  destruct (collected_complete f o g u c Hg Hu Hc Hp) as (r & Hin & Hr).
  exists r. split; [| exact Hr].
  eapply Permutation_in; [apply collected_sorted_perm | exact Hin].
Qed.

Lemma passing_glyph_is_recorded_witness :
  exists info r,
    FontExtractor.extractTextFromFont Samples.threeScripts Samples.defaults = Some info
    /\ In r (Types.glyphs info)
    /\ Types.unicode r = 0x1F600 /\ Types.char r = [0xD83D; 0xDE00].
Proof.
  eexists.
  destruct (passing_glyph_is_recorded Samples.threeScripts Samples.defaults _
              (Samples.glyphAt 0x1F600 "u1F600") 0x1F600 [0xD83D; 0xDE00] eq_refl)
    as (r & Hr); try reflexivity.
  - right. left. reflexivity.
  - exists r. split; [reflexivity | exact Hr].
Defined.

Lemma nth_error_map_some {B C : Type} (h : B -> C) (l : list B) (i : nat) (x : B) :
  nth_error l i = Some x -> nth_error (List.map h l) i = Some (h x).
Proof.
  revert i. induction l as [| y l IH]; intros [| i]; simpl; try discriminate.
  - intros [= <-]. reflexivity.
  - apply IH.
Qed.

(** X2.  The code points of the inventory are strictly increasing, so no two
    records share a code point. *)
Theorem glyphs_strictly_ascending (f : opentype.Font) (o : Types.ExtractOptions)
    (info : Types.FontInfo) :
  FontExtractor.extractTextFromFont f o = Some info ->
  (forall (i : nat) (a b : Types.FontGlyph),
      nth_error (Types.glyphs info) i = Some a ->
      nth_error (Types.glyphs info) (S i) = Some b ->
      Types.unicode a < Types.unicode b)
  /\ List.NoDup (List.map Types.unicode (Types.glyphs info)).
Proof.
  intros H. destruct (extract_inv f o info H) as (meta & _ & ->). simpl.
  set (l := sort FontExtractor.byUnicode (collected f o)).
  assert (List.NoDup (List.map Types.char l)) as Hnd.
  { eapply Permutation_NoDup; [| apply collected_NoDup].
    apply Permutation_map, collected_sorted_perm. }
  assert (forall (i : nat) (a b : Types.FontGlyph),
             nth_error l i = Some a -> nth_error l (S i) = Some b ->
             Types.unicode a < Types.unicode b) as Hstrict.
  { intros i a b Ha Hb.
    assert (Types.unicode a <= Types.unicode b) as Hle.
    { exact (Sorted_adjacent ascending l (sort_byUnicode_sorted _) i a b Ha Hb). }
    assert (Types.unicode a <> Types.unicode b) as Hne; [| lia].
    intros E.
    assert (In a l) as Hina by (eapply nth_error_In; eassumption).
    assert (In b l) as Hinb by (eapply nth_error_In; eassumption).
    destruct (collected_toChar f o a Hina) as (Hca & _).
    destruct (collected_toChar f o b Hinb) as (Hcb & _).
    assert (Types.char a = Types.char b) as Ec by congruence.
    rewrite List.NoDup_nth_error in Hnd.
    assert (i = S i); [| lia].
    apply Hnd.
    - rewrite List.length_map. apply nth_error_Some. congruence.
    - rewrite (nth_error_map_some _ _ _ _ Ha), (nth_error_map_some _ _ _ _ Hb), Ec.
      reflexivity. }
  split; [exact Hstrict |].
  assert (StronglySorted N.lt (List.map Types.unicode l)) as Hss.
  { apply Sorted_StronglySorted; [intros x y z; lia |].
    clear Hnd. induction l as [| a k IH]; [constructor |].
    simpl. constructor.
    - apply IH. intros i x y Hx Hy. exact (Hstrict (S i) x y Hx Hy).
    - destruct k as [| b k]; constructor.
      exact (Hstrict 0%nat a b eq_refl eq_refl). }
  clear Hstrict Hnd. induction Hss as [| x k _ IH Hall]; constructor; [| exact IH].
  intros Hin. rewrite List.Forall_forall in Hall. specialize (Hall x Hin). lia.
Qed.

Lemma glyphs_strictly_ascending_witness :
  exists info,
    FontExtractor.extractTextFromFont Samples.duplicates Samples.includeControl
    = Some info
    /\ List.map Types.unicode (Types.glyphs info) = [0x09; 0x41]
    /\ List.NoDup (List.map Types.unicode (Types.glyphs info)).
Proof.
  eexists. split; [reflexivity |]. split; [reflexivity |].
  apply (glyphs_strictly_ascending Samples.duplicates Samples.includeControl _ eq_refl).
Defined.

Lemma loop_length (po ic : bool) (flt : option (jsstring -> N -> bool))
    (rest : list opentype.Glyph) (i : nat)
    (st : list Types.FontGlyph * gset jsstring) :
  (length (loop po ic flt i rest st).1 <= length st.1 + length rest)%nat.
Proof.
  revert i st. induction rest as [| g rest IH]; intros i st; simpl; [lia |].
  etransitivity; [apply IH |].
  unfold step. destruct (candidate po ic flt i g) as [r |]; [| lia].
  destruct (decide (Types.char r ∈ st.2)); simpl; [lia |].
  rewrite List.length_app. simpl. lia.
Qed.

(** X3.  [glyphCount] is the length of [glyphs], and it never exceeds the
    number of glyphs of the font. *)
Theorem glyphCount_bounds (f : opentype.Font) (o : Types.ExtractOptions)
    (info : Types.FontInfo) :
  FontExtractor.extractTextFromFont f o = Some info ->
  Types.glyphCount info = length (Types.glyphs info)
  /\ (Types.glyphCount info <= length (opentype.glyphs f))%nat.
Proof.
  intros H. destruct (extract_inv f o info H) as (meta & _ & ->). simpl.
  split; [reflexivity |].
  rewrite <- (Permutation_length (collected_sorted_perm f o)).
  unfold collected. etransitivity; [apply loop_length |]. simpl. lia.
Qed.

Lemma glyphCount_bounds_witness :
  exists info,
    FontExtractor.extractTextFromFont Samples.duplicates Samples.defaults = Some info
    /\ Types.glyphCount info = 1%nat
    /\ (Types.glyphCount info <= 4)%nat.
Proof.
  eexists. split; [reflexivity |]. split; [reflexivity |].
  apply (glyphCount_bounds Samples.duplicates Samples.defaults _ eq_refl).
Defined.

(** X4.  Both variants throw in exactly one situation, whatever the options
    and the glyphs: the font has no PostScript name and its full-name entry
    has no usable English string, so that [replace] is called on an
    object. *)
Theorem extraction_throws_iff (f : opentype.Font) (o : Types.ExtractOptions) :
  (FontExtractor.extractTextFromFont f o = None
   <-> opentype.postScriptName (opentype.names f) = None
       /\ exists e, opentype.fullName (opentype.names f) = Some e /\ noEnglish e)
  /\ (FontExtractor.extractTextFromFontSync f o = None
      <-> opentype.postScriptName (opentype.names f) = None
          /\ exists e, opentype.fullName (opentype.names f) = Some e /\ noEnglish e).
Proof.
  unfold noEnglish. rewrite <- metadata_throws_iff. split.
  - unfold FontExtractor.extractTextFromFont, FontExtractor.extractTextFromFont_run.
    destruct (FontExtractor.metadata f); simpl; split; congruence.
  - unfold FontExtractor.extractTextFromFontSync.
    change (FontExtractor.metadataSync f) with (FontExtractor.metadata f).
    destruct (FontExtractor.metadata f); simpl; split; congruence.
Qed.

Lemma toChar_none_iff (u : N) : toChar u = None <-> 0x10FFFF < u.
Proof.
  unfold toChar, fromCodePoint.
  destruct (N.leb_spec u 0xFFFF); [split; [discriminate | lia] |].
  destruct (N.ltb_spec 0x10FFFF u); split; try tauto; try discriminate; lia.
Qed.

Lemma scanGlyph_console (po ic : bool) (flt : option (jsstring -> N -> bool))
    (st : FontExtractor.ScanState) (i : nat) (g : opentype.Glyph) :
  FontExtractor.console (FontExtractor.scanGlyph po ic flt st i g)
  = FontExtractor.console st ++ unconvertible [g].
Proof.
  unfold FontExtractor.scanGlyph, unconvertible. simpl.
  destruct (opentype.unicode g) as [u |]; [| rewrite app_nil_r; reflexivity].
  change (if u <=? 65535 then Some (fromCharCode u) else fromCodePoint u)
    with (toChar u).
  destruct (toChar u) as [c |] eqn:Hc.
  - assert ((0x10FFFF <? u) = false) as ->.
    { apply N.ltb_ge. exact (toChar_in_range _ _ Hc). }
    rewrite !app_nil_r.
    repeat match goal with
           | |- context [if ?b then _ else _] => destruct b
           end; reflexivity.
  - apply toChar_none_iff in Hc. apply N.ltb_lt in Hc. rewrite Hc. reflexivity.
Qed.

Lemma scanLoop_console (po ic : bool) (flt : option (jsstring -> N -> bool))
    (rest : list opentype.Glyph) (i : nat) (st : FontExtractor.ScanState) :
  FontExtractor.console (FontExtractor.scanLoop po ic flt i rest st)
  = FontExtractor.console st ++ unconvertible rest.
Proof.
  revert i st. induction rest as [| g rest IH]; intros i st.
  - simpl. rewrite app_nil_r. reflexivity.
  - cbn [FontExtractor.scanLoop]. rewrite IH, scanGlyph_console, <- app_assoc.
    f_equal. unfold unconvertible. simpl. rewrite app_nil_r. reflexivity.
Qed.

(** X5.  A successful call of [extractTextFromFont] warns once for each
    glyph whose code point is above U+10FFFF, in glyph order, whatever the
    options, and for nothing else; no record of the inventory has such a
    code point. *)
Theorem warnings_are_the_unconvertible (f : opentype.Font) (o : Types.ExtractOptions)
    (info : Types.FontInfo) :
  FontExtractor.extractTextFromFont f o = Some info ->
  FontExtractor.warned (FontExtractor.extractTextFromFont_run f o)
  = unconvertible (opentype.glyphs f)
  /\ (forall u, In u (unconvertible (opentype.glyphs f)) -> 0x10FFFF < u)
  /\ (forall r, In r (Types.glyphs info) -> Types.unicode r <= 0x10FFFF).
Proof.
  intros H. split; [| split].
  - revert H.
    unfold FontExtractor.extractTextFromFont, FontExtractor.extractTextFromFont_run.
    destruct (FontExtractor.metadata f); [| discriminate]. simpl. intros _.
    rewrite scanLoop_console. reflexivity.
  - intros u Hu. unfold unconvertible in Hu. apply in_flat_map in Hu as (g & _ & Hu).
    destruct (opentype.unicode g) as [v |]; [| destruct Hu].
    destruct (N.ltb_spec 0x10FFFF v); [| destruct Hu].
    destruct Hu as [<- | []]. assumption.
  - destruct (extract_inv f o info H) as (meta & _ & ->). simpl. intros r Hr.
    destruct (collected_toChar f o r Hr) as (Hc & _).
    exact (toChar_in_range _ _ Hc).
Qed.

Lemma warnings_are_the_unconvertible_witness :
  exists info,
    FontExtractor.extractTextFromFont outOfRange Samples.includeControl = Some info
    /\ List.map Types.unicode (Types.glyphs info) = [0x41]
    /\ FontExtractor.warned
         (FontExtractor.extractTextFromFont_run outOfRange Samples.includeControl)
       = [0x110000].
Proof.
  eexists. split; [reflexivity |]. split; [reflexivity |].
  rewrite (proj1 (warnings_are_the_unconvertible outOfRange Samples.includeControl
                    _ eq_refl)).
  reflexivity.
Defined.




End InventoryFurther.

(* ===================================================================== *)
(** ** Further properties of the filters *)
(* ===================================================================== *)

Section FiltersFurther.
Import JS Props Further.

(** X7.  What [isPrintableChar] computes, for every argument: membership in
    a listed block, or a code point above U+001F outside the surrogate range
    whose low sixteen bits are not a whitespace unit.  The [char] argument
    plays no part. *)
Theorem printable_policy_exact (c : jsstring) (u : N) :
  FontExtractor.isPrintableChar c u
  = inListedRanges u
    || ((0x1F <? u) && negb (isSurrogate u)
        && (negb (isWhiteSpace (u mod 0x10000)) || (u =? 0x20)))
  /\ forall c' : jsstring,
       FontExtractor.isPrintableChar c' u = FontExtractor.isPrintableChar c u.
Proof.
  split; [apply isPrintableChar_char |].
  intros c'. rewrite !isPrintableChar_char. reflexivity.
Qed.

Lemma listed_is_plain (u : N) :
  inListedRanges u = true -> (0x1F <? u) = true /\ isSurrogate u = false.
Proof.
  intros H. split.
  - destruct (N.ltb_spec 0x1F u); [reflexivity |].
    exfalso. revert H. unfold inListedRanges. settle_comparisons. discriminate.
  - unfold isSurrogate.
    destruct (N.leb_spec 0xD800 u); [| reflexivity].
    destruct (N.leb_spec u 0xDFFF); [| reflexivity].
    exfalso. revert H. unfold inListedRanges. settle_comparisons. discriminate.
Qed.

Lemma listed_whitespace (u : N) :
  isWhiteSpace u = true -> u <> 0x20 -> u <> 0xA0 -> inListedRanges u = false.
Proof.
  unfold isWhiteSpace. intros H H20 HA0.
  repeat match goal with
         | H : _ || _ = true |- _ => apply orb_prop in H as [H | H]
         end;
    try (apply N.eqb_eq in H; subst u; try contradiction; reflexivity).
  apply andb_prop in H as [Hlo Hhi]. apply N.leb_le in Hlo, Hhi.
  unfold inListedRanges. settle_comparisons. reflexivity.
Qed.

(** X8.  On the Basic Multilingual Plane the policy rejects exactly the
    control characters up to U+001F, the surrogates, and the whitespace
    units other than the space and the no-break space; everything else,
    DEL (U+007F) included, is printable. *)
Theorem printable_on_bmp (c : jsstring) (u : N) :
  u <= 0xFFFF ->
  FontExtractor.isPrintableChar c u
  = (0x1F <? u) && negb (isSurrogate u)
    && (negb (isWhiteSpace u) || (u =? 0x20) || (u =? 0xA0)).
Proof.
  intros Hle. rewrite isPrintableChar_char, N.mod_small by lia.
  destruct (inListedRanges u) eqn:HL.
  - destruct (listed_is_plain u HL) as [-> ->]. simpl.
    destruct (isWhiteSpace u) eqn:HW; [| reflexivity]. simpl.
    destruct (N.eqb_spec u 0x20); [reflexivity |].
    destruct (N.eqb_spec u 0xA0); [reflexivity |].
    rewrite (listed_whitespace u HW) in HL by assumption. discriminate.
  - destruct (N.eqb_spec u 0xA0) as [-> |]; [discriminate HL |].
    rewrite orb_false_r. reflexivity.
Qed.

Lemma printable_on_bmp_witness :
  FontExtractor.isPrintableChar [0x7F] 0x7F = true
  /\ FontExtractor.isPrintableChar [0x3000] 0x3000 = false
  /\ FontExtractor.isPrintableChar [0xA0] 0xA0 = true.
Proof.
  rewrite (printable_on_bmp [0x7F] 0x7F) by lia.
  rewrite (printable_on_bmp [0x3000] 0x3000) by lia.
  rewrite (printable_on_bmp [0xA0] 0xA0) by lia.
  repeat split; reflexivity.
Defined.

Lemma loop_ext (po ic po' ic' : bool) (flt flt' : option (jsstring -> N -> bool))
    (rest : list opentype.Glyph) (i : nat)
    (st : list Types.FontGlyph * gset jsstring) :
  (forall j g, candidate po ic flt j g = candidate po' ic' flt' j g) ->
  loop po ic flt i rest st = loop po' ic' flt' i rest st.
Proof.
  intros Hc. revert i st. induction rest as [| g rest IH]; intros i st; simpl;
    [reflexivity |].
  rewrite IH. unfold step. rewrite Hc. reflexivity.
Qed.

Lemma collected_unfiltered (f : opentype.Font) (o : Types.ExtractOptions) :
  collected f o = List.filter (passesOptions o) (collected f (unfiltered o)).
Proof.
  unfold collected. simpl.
  set (po := default true (Types.printableOnly o)).
  set (ic := default false (Types.includeControlChars o)).
  set (flt := Types.filter o).
  rewrite (loop_ext po ic false true flt (Some (passes po ic flt))).
  - apply (loop_filteredView false true (passes po ic flt)
             (opentype.glyphs f) 0 ([], ∅) ([], ∅)).
    assert (seenMatches ([], ∅)) as Hinit.
    { split; simpl; [constructor |]. intros c. rewrite elem_of_empty. tauto. }
    split; [reflexivity |]. split; [exact Hinit |]. split; [exact Hinit |].
    intros r [].
  - intros j g. unfold candidate.
    destruct (opentype.unicode g) as [u |]; [| reflexivity].
    destruct (toChar u) as [c |]; reflexivity.
Qed.

(** X9.  The options only restrict: the inventory under any options is the
    inventory with every filter off ([printableOnly] off,
    [includeControlChars] on, no custom filter), restricted to the records
    that pass the three filters of the options, in the same order. *)
Theorem options_only_restrict (f : opentype.Font) (o : Types.ExtractOptions)
    (info full : Types.FontInfo) :
  FontExtractor.extractTextFromFont f o = Some info ->
  FontExtractor.extractTextFromFont f (unfiltered o) = Some full ->
  Types.glyphs info = List.filter (passesOptions o) (Types.glyphs full)
  /\ (Types.glyphCount info <= Types.glyphCount full)%nat.
Proof.
  intros H H'.
  destruct (extract_inv _ _ _ H) as (meta & _ & ->).
  destruct (extract_inv _ _ _ H') as (meta' & _ & ->). simpl.
  assert (sort FontExtractor.byUnicode (collected f o)
          = List.filter (passesOptions o)
              (sort FontExtractor.byUnicode (collected f (unfiltered o)))) as E.
  { rewrite filter_sort. f_equal. apply collected_unfiltered. }
  split; [exact E |]. rewrite E. apply List.filter_length_le.
Qed.

Lemma options_only_restrict_witness :
  exists info full,
    FontExtractor.extractTextFromFont Samples.withTab Samples.rejectB = Some info
    /\ FontExtractor.extractTextFromFont Samples.withTab (unfiltered Samples.rejectB)
       = Some full
    /\ List.map Types.unicode (Types.glyphs full) = [0x09; 0x41; 0x42]
    /\ List.map Types.unicode (Types.glyphs info) = [0x41]
    /\ Types.glyphs info = List.filter (passesOptions Samples.rejectB) (Types.glyphs full).
Proof.
  eexists. eexists. split; [reflexivity |]. split; [reflexivity |].
  split; [reflexivity |]. split; [reflexivity |].
  exact (proj1 (options_only_restrict Samples.withTab Samples.rejectB _ _
                  eq_refl eq_refl)).
Defined.

End FiltersFurther.

(* ===================================================================== *)
(** ** Names, duplicates and metadata *)
(* ===================================================================== *)

Section NamesFurther.
Import JS Props Further.

Lemma label_nonempty (g : opentype.Glyph) (i : nat) : label g i <> [].
Proof.
  unfold label. destruct (opentype.name g) as [[| a n] |]; simpl; discriminate.
Qed.

(** Every record comes from the glyph at some index of the list, with that
    index in its synthetic name. *)
Lemma loop_from_indexed (po ic : bool) (flt : option (jsstring -> N -> bool))
    (rest : list opentype.Glyph) (i : nat)
    (st : list Types.FontGlyph * gset jsstring) (r : Types.FontGlyph) :
  In r (loop po ic flt i rest st).1 ->
  In r st.1
  \/ exists k g, nth_error rest k = Some g /\ candidate po ic flt (i + k) g = Some r.
Proof.
  revert i st. induction rest as [| g rest IH]; intros i st; simpl; [auto |].
  intros Hin. destruct (IH _ _ Hin) as [Hst | (k & g' & Hk & Hc)].
  - unfold step in Hst.
    destruct (candidate po ic flt i g) as [r' |] eqn:Hc; [| auto].
    destruct (decide (Types.char r' ∈ st.2)); [auto |].
    simpl in Hst. apply in_app_or in Hst as [Hst | [<- | []]]; [auto |].
    right. exists 0%nat, g. rewrite Nat.add_0_r. auto.
  - right. exists (S k), g'. split; [exact Hk |].
    replace (i + S k)%nat with (S i + k)%nat by lia. exact Hc.
Qed.

(** X10.  Every record of the inventory carries the data of one glyph of the
    font: that glyph's code point, its name when it has a non-empty one and
    otherwise [glyph_] followed by its index, and whether it has a path.
    No record has an empty name. *)
Theorem record_comes_from_a_glyph (f : opentype.Font) (o : Types.ExtractOptions)
    (info : Types.FontInfo) (r : Types.FontGlyph) :
  FontExtractor.extractTextFromFont f o = Some info ->
  In r (Types.glyphs info) ->
  Types.name r <> []
  /\ exists i g,
       nth_error (opentype.glyphs f) i = Some g
       /\ opentype.unicode g = Some (Types.unicode r)
       /\ Types.name r
          = match opentype.name g with
            | Some (a :: n) => a :: n
            | _ => lit "glyph_" ++ toStringNat i
            end
       /\ Types.hasPath r = bool_decide (opentype.path g <> None).
Proof.
  intros H Hr. destruct (extract_inv f o info H) as (meta & _ & ->). simpl in Hr.
  apply Permutation_in with (l' := collected f o) in Hr;
    [| symmetry; apply collected_sorted_perm].
  unfold collected in Hr.
  apply loop_from_indexed in Hr as [[] | (k & g & Hk & Hc)].
  apply candidate_inv in Hc as (Hu & _ & _ & Hrec). simpl in Hrec.
  rewrite Hrec. simpl. split; [apply label_nonempty |].
  exists k, g. split; [exact Hk |]. split; [exact Hu |]. split.
  - unfold label. destruct (opentype.name g) as [[| a n] |]; reflexivity.
  - destruct (opentype.path g); reflexivity.
Qed.

Lemma record_comes_from_a_glyph_witness :
  exists info r,
    FontExtractor.extractTextFromFont unnamed Samples.defaults = Some info
    /\ Types.glyphs info = [r]
    /\ Types.name r = lit "glyph_0" /\ Types.hasPath r = false
    /\ Types.name r <> [].
Proof.
  eexists. eexists. split; [reflexivity |]. split; [reflexivity |].
  split; [reflexivity |]. split; [reflexivity |].
  apply (record_comes_from_a_glyph unnamed Samples.defaults _ _ eq_refl).
  left. reflexivity.
Defined.

Lemma extract_closed_form (f : opentype.Font) (o : Types.ExtractOptions) :
  FontExtractor.extractTextFromFont f o
  = match FontExtractor.metadata f with
    | None => None
    | Some meta =>
        Some {| Types.familyName := FontExtractor.familyName meta;
                Types.subfamilyName := FontExtractor.subfamilyName meta;
                Types.fullName := FontExtractor.fullName meta;
                Types.postScriptName := FontExtractor.postScriptName meta;
                Types.glyphCount := length (sort FontExtractor.byUnicode (collected f o));
                Types.glyphs := sort FontExtractor.byUnicode (collected f o);
                Types.extractedText :=
                  renderText (default Types.text (Types.outputFormat o))
                    (sort FontExtractor.byUnicode (collected f o)) |}
    end.
Proof.
  destruct (FontExtractor.extractTextFromFont f o) as [info |] eqn:H.
  - destruct (extract_inv f o info H) as (meta & -> & ->). reflexivity.
  - revert H.
    unfold FontExtractor.extractTextFromFont, FontExtractor.extractTextFromFont_run.
    destruct (FontExtractor.metadata f); [discriminate | reflexivity].
Qed.

(** X11.  A glyph added at the end of the glyph table changes nothing when it
    has no code point or when an earlier glyph already has its code point:
    the call returns the same inventory, name for name. *)
Theorem appended_duplicate_is_ignored (f : opentype.Font) (o : Types.ExtractOptions)
    (g' : opentype.Glyph) :
  opentype.unicode g' = None
  \/ (exists g, In g (opentype.glyphs f) /\ opentype.unicode g = opentype.unicode g') ->
  FontExtractor.extractTextFromFont (appendGlyph f g') o
  = FontExtractor.extractTextFromFont f o.
Proof.
  intros Hdup. rewrite !extract_closed_form.
  change (FontExtractor.metadata (appendGlyph f g')) with (FontExtractor.metadata f).
  assert (collected (appendGlyph f g') o = collected f o) as ->; [| reflexivity].
  unfold collected. simpl. rewrite loop_app. simpl.
  set (po := default true (Types.printableOnly o)).
  set (ic := default false (Types.includeControlChars o)).
  set (flt := Types.filter o).
  unfold step, candidate.
  destruct (opentype.unicode g') as [u |] eqn:Hu; [| reflexivity].
  destruct Hdup as [Hnone | (g & Hg & Hgu)]; [discriminate |].
  destruct (toChar u) as [c |] eqn:Hc; [| reflexivity].
  destruct (passes po ic flt c u) eqn:Hp; [| reflexivity].
  simpl.
  destruct (decide (c ∈ (loop po ic flt 0 (opentype.glyphs f) ([], ∅)).2))
    as [_ | Hout]; [reflexivity |].
  exfalso. apply Hout. exact (loop_sees po ic flt _ 0 _ g u c Hg Hgu Hc Hp).
Qed.

Lemma appended_duplicate_is_ignored_witness :
  FontExtractor.extractTextFromFont
    (appendGlyph Samples.threeScripts (Samples.glyphAt 0x41 "A.alt")) Samples.defaults
  = FontExtractor.extractTextFromFont Samples.threeScripts Samples.defaults.
Proof.
  apply appended_duplicate_is_ignored. right.
  exists (Samples.glyphAt 0x41 "A"). split; [| reflexivity].
  right. right. left. reflexivity.
Defined.

Lemma removeWhiteSpace_clean (s : jsstring) :
  Forall (fun c => isWhiteSpace c = false) (removeWhiteSpace s).
Proof.
  apply List.Forall_forall. intros c Hc. unfold removeWhiteSpace in Hc.
  apply filter_In in Hc as [_ Hc]. apply negb_true_iff in Hc. exact Hc.
Qed.

(** X12.  The PostScript name of a font that has none is the full name with
    every whitespace unit removed, so it contains no whitespace; a font
    without any name gets the family and subfamily [Unknown], the full name
    [Unknown Unknown] and the PostScript name [UnknownUnknown]. *)
Theorem postScriptName_fallback (f : opentype.Font) (o : Types.ExtractOptions)
    (info : Types.FontInfo) :
  FontExtractor.extractTextFromFont f o = Some info ->
  opentype.postScriptName (opentype.names f) = None ->
  (exists full ps,
     Types.fullName info = Types.NameString full
     /\ Types.postScriptName info = Types.NameString ps
     /\ ps = removeWhiteSpace full
     /\ Forall (fun c => isWhiteSpace c = false) ps)
  /\ (opentype.names f = Samples.noNames ->
      Types.familyName info = Types.NameString (lit "Unknown")
      /\ Types.subfamilyName info = Types.NameString (lit "Unknown")
      /\ Types.fullName info = Types.NameString (lit "Unknown Unknown")
      /\ Types.postScriptName info = Types.NameString (lit "UnknownUnknown")).
Proof.
  intros H Hps. destruct (extract_inv f o info H) as (meta & Hmeta & ->). simpl.
  split.
  - revert Hmeta. unfold FontExtractor.metadata.
    destruct (opentype.names f) as [fam sub full ps]. simpl in Hps. subst ps. simpl.
    destruct (FontExtractor.nameOr fam _) as [fn |]; [| discriminate]. simpl.
    destruct (FontExtractor.nameOr sub _) as [sn |]; [| discriminate]. simpl.
    destruct (FontExtractor.nameOr full _) as [[s | e] |]; simpl; try discriminate.
    intros [= <-]. simpl.
    exists s, (removeWhiteSpace s). repeat split. apply removeWhiteSpace_clean.
  - intros Hn. unfold FontExtractor.metadata in Hmeta. rewrite Hn in Hmeta.
    vm_compute in Hmeta. injection Hmeta as <-. repeat split; reflexivity.
Qed.

Lemma postScriptName_fallback_witness :
  exists info,
    FontExtractor.extractTextFromFont Samples.threeScripts Samples.defaults = Some info
    /\ Types.postScriptName info = Types.NameString (lit "UnknownUnknown").
Proof.
  eexists. split; [reflexivity |].
  apply (postScriptName_fallback Samples.threeScripts Samples.defaults _
           eq_refl eq_refl).
  reflexivity.
Defined.

End NamesFurther.

(* ===================================================================== *)
(** ** Further properties of the checker *)
(* ===================================================================== *)

Section CheckerFurther.
Import JS Props Further.

Lemma findGlyph_NaN (gs : list opentype.Glyph) (i : nat) :
  FontChecker.findGlyph NaN i gs = (false, None).
Proof.
  revert i. induction gs as [| g gs IH]; intros i; simpl; [reflexivity |].
  destruct (opentype.unicode g); simpl; apply IH.
Qed.

(** X13.  [checkCharInFont] on the empty string, for any font: the code
    point is [NaN], which equals no glyph's code point, so the character is
    reported missing and without a glyph name. *)
Theorem checkChar_empty_string (f : opentype.Font) :
  FontChecker.checkCharInFont f []
  = {| FontChecker.char := []; FontChecker.unicode := NaN;
       FontChecker.exists_ := false; FontChecker.glyphName := None |}.
Proof.
  unfold FontChecker.checkCharInFont. simpl.
  rewrite findGlyph_NaN. reflexivity.
Qed.

Lemma entry_exists_agrees (f : opentype.Font) (c : jsstring) :
  FontChecker.exists_
    (resultOf (FontChecker.fillMap 0 (opentype.glyphs f) ∅) c)
  = FontChecker.exists_ (FontChecker.checkCharInFont f c).
Proof.
  destruct (checkCharInFont_fields f c) as (_ & _ & -> & _). simpl.
  destruct (FontChecker.unicodeOf c) as [u |]; simpl.
  - apply Bool.eq_iff_eq_true.
    pose proof (fillMap_lookup (opentype.glyphs f) 0 ∅ u) as Hm.
    rewrite lookup_empty in Hm. split.
    + intros H. apply findGlyph_found.
      destruct (FontChecker.fillMap 0 (opentype.glyphs f) ∅ !! u) eqn:E;
        [| discriminate].
      destruct (proj1 Hm (ex_intro _ _ eq_refl)) as [[x Hx] | Hg];
        [discriminate Hx | exact Hg].
    + intros H. apply findGlyph_absent in H.
      destruct (proj2 Hm (or_intror H)) as [x ->]. reflexivity.
  - rewrite findGlyph_NaN. reflexivity.
Qed.

(** X14.  [checkTextInFont] and [checkCharInFont] agree on existence: each
    entry of [chars] has the [unicode] and [exists] that [checkCharInFont]
    gives for its character, and [allExists] holds exactly when
    [checkCharInFont] finds every character of the text. *)
Theorem checkText_agrees_with_checkChar (f : opentype.Font) (t : jsstring) :
  (forall e, In e (FontChecker.chars (FontChecker.checkTextInFont f t)) ->
     FontChecker.unicode e
     = FontChecker.unicode (FontChecker.checkCharInFont f (FontChecker.char e))
     /\ FontChecker.exists_ e
        = FontChecker.exists_ (FontChecker.checkCharInFont f (FontChecker.char e)))
  /\ (FontChecker.allExists (FontChecker.checkTextInFont f t) = true
      <-> forall c, In c (arrayFrom t) ->
            FontChecker.exists_ (FontChecker.checkCharInFont f c) = true).
Proof.
  rewrite checkTextInFont_eq. simpl. split.
  - intros e He. apply in_map_iff in He as (c & <- & _). simpl. split.
    + destruct (checkCharInFont_fields f c) as (_ & -> & _). reflexivity.
    + apply (entry_exists_agrees f c).
  - set (m := FontChecker.fillMap 0 (opentype.glyphs f) ∅).
    transitivity (List.map FontChecker.char
                    (List.filter isMissing (List.map (resultOf m) (arrayFrom t))) = []).
    { destruct (List.map FontChecker.char _); simpl; split; congruence. }
    rewrite missing_nil_iff. split.
    + intros H c Hc. rewrite <- entry_exists_agrees. apply H.
      apply in_map. exact Hc.
    + intros H e He. apply in_map_iff in He as (c & <- & Hc).
      unfold m. rewrite entry_exists_agrees. apply H, Hc.
Qed.

(** What the map holds for a code point: what it held before, or the name
    and index of a glyph of the list that carries the code point. *)
Lemma fillMap_value (gs : list opentype.Glyph) (i : nat)
    (m : gmap N FontChecker.GlyphInfo) (u : N) (gi : FontChecker.GlyphInfo) :
  FontChecker.fillMap i gs m !! u = Some gi ->
  m !! u = Some gi
  \/ exists k g, nth_error gs k = Some g /\ opentype.unicode g = Some u
                 /\ gi = {| FontChecker.name := label g (i + k);
                            FontChecker.index := (i + k)%nat |}.
Proof.
  revert i m. induction gs as [| g gs IH]; intros i m; simpl; [auto |].
  intros H. destruct (IH _ _ H) as [Hm | (k & g' & Hk & Hu & ->)].
  - destruct (opentype.unicode g) as [a |] eqn:Ha; [| auto].
    destruct (decide (a = u)) as [-> | Hne].
    + rewrite lookup_insert_eq in Hm. injection Hm as <-.
      right. exists 0%nat, g. rewrite Nat.add_0_r. auto.
    + rewrite lookup_insert_ne in Hm by exact Hne. auto.
  - right. exists (S k), g'. replace (i + S k)%nat with (S i + k)%nat by lia. auto.
Qed.

Lemma findGlyph_name (u : number) (gs : list opentype.Glyph) (i : nat) (n : jsstring) :
  (FontChecker.findGlyph u i gs).2 = Some n -> n <> [].
Proof.
  revert i. induction gs as [| g gs IH]; intros i; simpl; [discriminate |].
  destruct (FontChecker.strictEq (opentype.unicode g) u); [| apply IH].
  simpl. intros [= <-]. apply (label_nonempty g i).
Qed.

Lemma findGlyph_name_iff (u : number) (gs : list opentype.Glyph) (i : nat) :
  (FontChecker.findGlyph u i gs).1 = true <-> is_Some (FontChecker.findGlyph u i gs).2.
Proof.
  revert i. induction gs as [| g gs IH]; intros i; simpl.
  - split; [discriminate | intros [x Hx]; discriminate].
  - destruct (FontChecker.strictEq (opentype.unicode g) u); [| apply IH].
    simpl. split; eauto.
Qed.

(** X15.  A glyph name is reported exactly when the character exists, by
    [checkCharInFont] and in every entry of [checkTextInFont], and a
    reported name is never the empty string. *)
Theorem glyphName_iff_exists (f : opentype.Font) :
  (forall s : jsstring,
     let r := FontChecker.checkCharInFont f s in
     (FontChecker.exists_ r = true <-> is_Some (FontChecker.glyphName r))
     /\ FontChecker.glyphName r <> Some [])
  /\ (forall (t : jsstring) (e : FontChecker.CharCheckResult),
        In e (FontChecker.chars (FontChecker.checkTextInFont f t)) ->
        (FontChecker.exists_ e = true <-> is_Some (FontChecker.glyphName e))
        /\ FontChecker.glyphName e <> Some []).
Proof.
  split.
  - intros s. simpl. destruct (checkCharInFont_fields f s) as (_ & _ & -> & ->).
    split; [apply findGlyph_name_iff |].
    intros H. exact (findGlyph_name _ _ _ _ H eq_refl).
  - intros t e He. rewrite checkTextInFont_eq in He. simpl in He.
    apply in_map_iff in He as (c & <- & _). simpl.
    destruct (FontChecker.mapGet _ (FontChecker.unicodeOf c)) as [gi |] eqn:Hg.
    + split; [split; eauto |]. intros [= Hn].
      destruct (FontChecker.unicodeOf c) as [u |]; [| discriminate]. simpl in Hg.
      apply fillMap_value in Hg as [Hg | (k & g & _ & _ & ->)].
      * rewrite lookup_empty in Hg. discriminate.
      * simpl in Hn. exact (label_nonempty _ _ Hn).
    + split; [| discriminate]. split; [discriminate | intros [x Hx]; discriminate].
Qed.

Lemma findGlyph_first (u : N) (pre post : list opentype.Glyph) (g : opentype.Glyph)
    (k : nat) :
  (forall g', In g' pre -> opentype.unicode g' <> Some u) ->
  opentype.unicode g = Some u ->
  FontChecker.findGlyph (Num u) k (pre ++ g :: post)
  = (true, Some (label g (k + length pre))).
Proof.
  revert k. induction pre as [| p pre IH]; intros k Hpre Hu; simpl.
  - rewrite Hu. simpl. rewrite N.eqb_refl, Nat.add_0_r. reflexivity.
  - assert (FontChecker.strictEq (opentype.unicode p) (Num u) = false) as ->.
    { unfold FontChecker.strictEq. destruct (opentype.unicode p) as [a |] eqn:Ha;
        [| reflexivity].
      apply N.eqb_neq. intros ->. apply (Hpre p); [left; reflexivity | exact Ha]. }
    rewrite IH; [| intros g' Hg'; apply Hpre; right; exact Hg' | exact Hu].
    do 3 f_equal. lia.
Qed.

(** X16.  [checkCharInFont] names the first match: when the glyph at index
    [i] is the lowest-indexed glyph with the first code point of the string,
    [glyphName] is that glyph's name, or [glyph_i] when it has none. *)
Theorem checkChar_names_first_match (f : opentype.Font) (s : jsstring) (u : N)
    (i : nat) (g : opentype.Glyph) :
  codePointAt0 s = Some u ->
  nth_error (opentype.glyphs f) i = Some g ->
  opentype.unicode g = Some u ->
  (forall j g', (j < i)%nat -> nth_error (opentype.glyphs f) j = Some g' ->
                opentype.unicode g' <> Some u) ->
  FontChecker.exists_ (FontChecker.checkCharInFont f s) = true
  /\ FontChecker.glyphName (FontChecker.checkCharInFont f s) = Some (label g i).
Proof.
  intros Hs Hg Hu Hlow.
  destruct (checkCharInFont_fields f s) as (_ & _ & -> & ->).
  unfold FontChecker.unicodeOf. rewrite Hs.
  destruct (nth_error_split _ _ Hg) as (pre & post & Hsplit & Hlen).
  rewrite Hsplit, (findGlyph_first u pre post g 0); [rewrite Hlen; auto | | exact Hu].
  intros g' Hg'. apply In_nth_error in Hg' as [j Hj].
  assert (j < length pre)%nat as Hlt by (apply nth_error_Some; congruence).
  apply (Hlow j); [lia |]. rewrite Hsplit, nth_error_app1 by exact Hlt. exact Hj.
Qed.

Lemma fillMap_app (a b : list opentype.Glyph) (k : nat)
    (m : gmap N FontChecker.GlyphInfo) :
  FontChecker.fillMap k (a ++ b) m
  = FontChecker.fillMap (k + length a) b (FontChecker.fillMap k a m).
Proof.
  revert k m. induction a as [| g a IH]; intros k m; simpl.
  - rewrite Nat.add_0_r. reflexivity.
  - rewrite IH. f_equal. lia.
Qed.

Lemma fillMap_other (gs : list opentype.Glyph) (k : nat)
    (m : gmap N FontChecker.GlyphInfo) (u : N) :
  (forall g', In g' gs -> opentype.unicode g' <> Some u) ->
  FontChecker.fillMap k gs m !! u = m !! u.
Proof.
  revert k m. induction gs as [| g gs IH]; intros k m Hgs; simpl; [reflexivity |].
  rewrite IH by (intros g' Hg'; apply Hgs; right; exact Hg').
  destruct (opentype.unicode g) as [a |] eqn:Ha; [| reflexivity].
  apply lookup_insert_ne. intros ->. apply (Hgs g); [left; reflexivity | exact Ha].
Qed.

(** X17.  [checkTextInFont] names the last match: when the glyph at index [i]
    is the highest-indexed glyph with an entry's code point, the entry's
    [glyphName] is that glyph's name, or [glyph_i] when it has none.  With
    several glyphs for one code point the two checks therefore report
    different names. *)
Theorem checkText_names_last_match (f : opentype.Font) (t : jsstring)
    (e : FontChecker.CharCheckResult) (u : N) (i : nat) (g : opentype.Glyph) :
  In e (FontChecker.chars (FontChecker.checkTextInFont f t)) ->
  FontChecker.unicode e = Num u ->
  nth_error (opentype.glyphs f) i = Some g ->
  opentype.unicode g = Some u ->
  (forall j g', (i < j)%nat -> nth_error (opentype.glyphs f) j = Some g' ->
                opentype.unicode g' <> Some u) ->
  FontChecker.exists_ e = true
  /\ FontChecker.glyphName e = Some (label g i).
Proof.
  intros He Hue Hg Hu Hhigh. rewrite checkTextInFont_eq in He. simpl in He.
  apply in_map_iff in He as (c & <- & _). simpl in *. rewrite Hue. simpl.
  destruct (nth_error_split _ _ Hg) as (pre & post & Hsplit & Hlen).
  assert (FontChecker.fillMap 0 (opentype.glyphs f) ∅ !! u
          = Some {| FontChecker.name := label g i; FontChecker.index := i |}) as ->;
    [| auto].
  rewrite Hsplit, fillMap_app. simpl. rewrite Hu, Hlen.
  rewrite fillMap_other; [apply lookup_insert_eq |].
  intros g' Hg'. apply In_nth_error in Hg' as [j Hj].
  apply (Hhigh (S (i + j))); [lia |].
  rewrite Hsplit, nth_error_app2 by lia.
  replace (S (i + j) - length pre)%nat with (S j) by lia. exact Hj.
Qed.

Lemma checkChar_names_first_match_witness :
  FontChecker.glyphName (FontChecker.checkCharInFont twoNames (lit "A"))
  = Some (lit "A").
Proof.
  refine (proj2 (checkChar_names_first_match twoNames (lit "A") 0x41 0
                   (Samples.glyphAt 0x41 "A") eq_refl eq_refl eq_refl _)).
  intros j g' Hj. lia.
Defined.

Lemma checkText_names_last_match_witness :
  exists e,
    FontChecker.chars (FontChecker.checkTextInFont twoNames (lit "A")) = [e]
    /\ FontChecker.glyphName e = Some (lit "A.alt").
Proof.
  eexists. split; [reflexivity |].
  eapply proj2.
  eapply (checkText_names_last_match twoNames (lit "A")) with
    (u := 0x41) (i := 2%nat) (g := Samples.glyphAt 0x41 "A.alt").
  - left. reflexivity.
  - reflexivity.
  - reflexivity.
  - reflexivity.
  - intros j g' Hj Hg'. destruct j as [| [| [| j]]]; try lia.
    destruct j; discriminate Hg'.
Defined.

End CheckerFurther.

(* ===================================================================== *)
(** ** From the inventory back to the checker *)
(* ===================================================================== *)

Section RoundTrip.
Import JS Props Further.

Lemma sorted_records_scalar (f : opentype.Font) (o : Types.ExtractOptions) :
  (default true (Types.printableOnly o) = true
   \/ forall g u, In g (opentype.glyphs f) -> opentype.unicode g = Some u ->
                  isSurrogate u = false) ->
  forall r, In r (sort FontExtractor.byUnicode (collected f o)) ->
    isScalar (Types.unicode r) = true
    /\ toChar (Types.unicode r) = Some (Types.char r).
Proof.
  intros Hscalar r Hr.
  destruct (collected_toChar f o r Hr) as (Hch & (g & Hg & Hu) & Hp).
  split; [| exact Hch].
  unfold isScalar. apply andb_true_intro. split.
  - apply N.leb_le. exact (toChar_in_range _ _ Hch).
  - apply negb_true_iff. destruct Hscalar as [Hpo | Hfont].
    + rewrite Hpo in Hp. unfold passes in Hp. simpl in Hp.
      apply andb_prop in Hp as [Hp _]. apply andb_prop in Hp as [Hp _].
      exact (isPrintableChar_not_surrogate _ _ Hp).
    + exact (Hfont g _ Hg Hu).
Qed.

(** X18.  Feeding the extracted text back to the checker: when the output
    format is [text] (or unset) and either [printableOnly] is on or no glyph
    is mapped to a surrogate code point, [checkTextInFont] on
    [extractedText] finds every character, reports nothing missing, and its
    entries are the records of the inventory one for one, with the same
    characters and code points in the same order; their number is
    [glyphCount]. *)
Theorem extractedText_checks_out (f : opentype.Font) (o : Types.ExtractOptions)
    (info : Types.FontInfo) :
  FontExtractor.extractTextFromFont f o = Some info ->
  default Types.text (Types.outputFormat o) = Types.text ->
  (default true (Types.printableOnly o) = true
   \/ forall g u, In g (opentype.glyphs f) -> opentype.unicode g = Some u ->
                  isSurrogate u = false) ->
  let r := FontChecker.checkTextInFont f (Types.extractedText info) in
  FontChecker.allExists r = true
  /\ FontChecker.missingChars r = []
  /\ List.map FontChecker.char (FontChecker.chars r)
     = List.map Types.char (Types.glyphs info)
  /\ List.map FontChecker.unicode (FontChecker.chars r)
     = List.map (fun g => Num (Types.unicode g)) (Types.glyphs info)
  /\ length (FontChecker.chars r) = Types.glyphCount info.
Proof.
  intros H Hfmt Hscalar. destruct (extract_inv f o info H) as (meta & _ & ->).
  cbv zeta. cbn [Types.extractedText Types.glyphs Types.glyphCount].
  rewrite Hfmt. cbn [renderText].
  set (l := sort FontExtractor.byUnicode (collected f o)).
  pose proof (sorted_records_scalar f o Hscalar) as Hrec. fold l in Hrec.
  rewrite join_nil, checkTextInFont_eq. cbv zeta.
  cbn [FontChecker.allExists FontChecker.missingChars FontChecker.chars].
  change (List.map (fun g => Types.char g) l) with (List.map Types.char l).
  rewrite (arrayFrom_concat_chars l Hrec).
  set (m := FontChecker.fillMap 0 (opentype.glyphs f) ∅).
  assert (List.map FontChecker.char
            (List.filter isMissing (List.map (resultOf m) (List.map Types.char l)))
          = []) as Hmissing.
  { apply missing_nil_iff. intros e He.
    apply in_map_iff in He as (c & <- & Hc). apply in_map_iff in Hc as (r & <- & Hr).
    simpl. destruct (Hrec r Hr) as [_ Hch].
    rewrite (unicodeOf_toChar _ _ Hch). simpl.
    destruct (collected_toChar f o r Hr) as (_ & Hg & _).
    destruct (proj2 (fillMap_lookup (opentype.glyphs f) 0 ∅ (Types.unicode r))
                (or_intror Hg)) as [x Hx].
    fold m in Hx. rewrite Hx. reflexivity. }
  rewrite Hmissing. simpl.
  split; [reflexivity |]. split; [reflexivity |]. split; [| split].
  - rewrite !List.map_map. reflexivity.
  - rewrite !List.map_map. simpl. apply List.map_ext_in. intros r Hr.
    destruct (Hrec r Hr) as [_ Hch]. exact (unicodeOf_toChar _ _ Hch).
  - rewrite !List.length_map. reflexivity.
Qed.

Lemma extractedText_checks_out_witness :
  exists info,
    FontExtractor.extractTextFromFont Samples.threeScripts Samples.defaults = Some info
    /\ FontChecker.allExists
         (FontChecker.checkTextInFont Samples.threeScripts (Types.extractedText info))
       = true
    /\ length (FontChecker.chars
                 (FontChecker.checkTextInFont Samples.threeScripts
                    (Types.extractedText info))) = 3%nat.
Proof.
  eexists. split; [reflexivity |].
  destruct (extractedText_checks_out Samples.threeScripts Samples.defaults _
              eq_refl eq_refl (or_introl eq_refl)) as (Hall & _ & _ & _ & Hlen).
  split; [exact Hall | exact Hlen].
Defined.

End RoundTrip.

(* ===================================================================== *)
(** ** The command line *)
(* ===================================================================== *)

Section CommandLine.
Import JS Props Further.

(** Induction that follows [parseFrom]: one argument or two at a time. *)
Lemma args_induction (P : list jsstring -> Prop) :
  P [] -> (forall a, P [a]) ->
  (forall a b l, P l -> P (b :: l) -> P (a :: b :: l)) ->
  forall l, P l.
Proof.
  intros Hnil Hone Hstep l.
  assert (P l /\ forall a, P (a :: l)) as [H _]; [| exact H].
  induction l as [| b l [IH1 IH2]]; [split; [exact Hnil | exact Hone] |].
  split; [apply IH2 |]. intros a. apply Hstep; [exact IH1 | apply IH2].
Qed.

Lemma flag_not_valued (arg : jsstring) (options options' : Cli.CliOptions) :
  Cli.flag arg options = Some options' ->
  arg <> lit "--format" /\ arg <> lit "--output".
Proof.
  intros H. split; intros ->; vm_compute in H; discriminate.
Qed.

Lemma flag_invariant (arg : jsstring) (options options' : Cli.CliOptions) :
  Cli.flag arg options = Some options' ->
  (Cli.includeControl options = false -> Cli.printableOnly options = true) ->
  Cli.includeControl options' = false -> Cli.printableOnly options' = true.
Proof.
  unfold Cli.flag. intros H Hinv.
  repeat match type of H with
         | (if ?b then _ else _) = _ => destruct b
         end; try discriminate; injection H as <-; simpl; auto; discriminate.
Qed.

Lemma parseFrom_invariant (rest : list jsstring) :
  forall options options',
    Cli.parseFrom rest options = Cli.Return options' ->
    (Cli.includeControl options = false -> Cli.printableOnly options = true) ->
    Cli.includeControl options' = false -> Cli.printableOnly options' = true.
Proof.
  induction rest as [| a | a b l IHl IHbl] using args_induction;
    intros options options'.
  - simpl. intros [= <-]. auto.
  - simpl. destruct (Cli.flag a options) as [o1 |] eqn:Hf; [| discriminate].
    intros [= <-]. exact (flag_invariant _ _ _ Hf).
  - cbn [Cli.parseFrom].
    destruct (bool_decide (a = lit "--format")).
    { destruct (Cli.asFormat b); [| discriminate].
      intros H Hinv. exact (IHl _ _ H Hinv). }
    destruct (bool_decide (a = lit "--output")).
    { intros H Hinv. exact (IHl _ _ H Hinv). }
    destruct (Cli.flag a options) as [o1 |] eqn:Hf; [| discriminate].
    intros H Hinv. exact (IHbl _ _ H (flag_invariant _ _ _ Hf Hinv)).
Qed.

(** X19.  Whatever the arguments, a successful [parseArgs] takes the first
    argument as the font path and never yields [printableOnly] off together
    with [includeControl] off; the options [main] passes on carry no custom
    filter. *)
Theorem parseArgs_invariant (args : list jsstring) (fontPath : jsstring)
    (options : Cli.CliOptions) :
  Cli.parseArgs args = Cli.Return (fontPath, options) ->
  List.hd_error args = Some fontPath
  /\ (Cli.includeControl options = false -> Cli.printableOnly options = true)
  /\ Types.filter (Cli.extractOptions options) = None.
Proof.
  unfold Cli.parseArgs. destruct args as [| p rest]; [discriminate |].
  destruct (Cli.parseFrom rest Cli.initial) as [o' | why] eqn:H; [| discriminate].
  intros [= <- <-]. split; [reflexivity |]. split; [| reflexivity].
  apply (parseFrom_invariant rest _ _ H). reflexivity.
Qed.

Lemma parseArgs_invariant_witness :
  exists options,
    Cli.parseArgs [lit "font.ttf"; lit "--include-control"; lit "--format"; lit "json"]
    = Cli.Return (lit "font.ttf", options)
    /\ Cli.printableOnly options = false
    /\ Cli.includeControl options = true
    /\ Cli.format options = Types.json
    /\ (Cli.includeControl options = false -> Cli.printableOnly options = true).
Proof.
  eexists. split; [reflexivity |]. repeat (split; [reflexivity |]).
  apply (parseArgs_invariant
           [lit "font.ttf"; lit "--include-control"; lit "--format"; lit "json"]
           (lit "font.ttf") _ eq_refl).
Defined.

Lemma parseFrom_app (a b : list jsstring) :
  forall options options',
    Cli.parseFrom a options = Cli.Return options' ->
    Cli.parseFrom (a ++ b) options = Cli.parseFrom b options'.
Proof.
  induction a as [| x | x y l IHl IHyl] using args_induction;
    intros options options'.
  - simpl. intros [= <-]. reflexivity.
  - cbn [Cli.parseFrom].
    destruct (Cli.flag x options) as [o1 |] eqn:Hf; [| discriminate].
    intros [= <-]. destruct (flag_not_valued _ _ _ Hf) as [Hnf Hno].
    destruct b as [| v b]; cbn [app Cli.parseFrom].
    + rewrite Hf. reflexivity.
    + rewrite (bool_decide_eq_false_2 _ Hnf), (bool_decide_eq_false_2 _ Hno), Hf.
      reflexivity.
  - change ((x :: y :: l) ++ b) with (x :: y :: (l ++ b)).
    cbn [Cli.parseFrom].
    destruct (bool_decide (x = lit "--format")).
    { destruct (Cli.asFormat y); [apply IHl | discriminate]. }
    destruct (bool_decide (x = lit "--output")); [apply IHl |].
    destruct (Cli.flag x options) as [o1 |]; [| discriminate].
    intros H. exact (IHyl _ _ H).
Qed.

(** X20.  Arguments that parse on their own can be extended: parsing them
    followed by more arguments is parsing the further arguments from the
    options they produced, so later options override earlier ones and an
    error comes from the first argument that is wrong. *)
Theorem parseArgs_extends (fontPath : jsstring) (a b : list jsstring)
    (options : Cli.CliOptions) :
  Cli.parseArgs (fontPath :: a) = Cli.Return (fontPath, options) ->
  Cli.parseArgs (fontPath :: a ++ b)
  = match Cli.parseFrom b options with
    | Cli.Return options' => Cli.Return (fontPath, options')
    | Cli.Exit why => Cli.Exit why
    end.
Proof.
  unfold Cli.parseArgs.
  destruct (Cli.parseFrom a Cli.initial) as [o' | why] eqn:H; [| discriminate].
  intros [= <-]. rewrite (parseFrom_app a b _ _ H). reflexivity.
Qed.

Lemma parseArgs_extends_witness :
  Cli.parseArgs ([lit "font.ttf"; lit "--include-control"] ++ [lit "--printable-only"])
  = Cli.Return (lit "font.ttf",
                {| Cli.format := Types.text; Cli.output := None;
                   Cli.printableOnly := true; Cli.includeControl := true;
                   Cli.info := false |}).
Proof.
  change ([lit "font.ttf"; lit "--include-control"] ++ [lit "--printable-only"])
    with (lit "font.ttf" :: [lit "--include-control"] ++ [lit "--printable-only"]).
  rewrite (parseArgs_extends (lit "font.ttf") [lit "--include-control"]
             [lit "--printable-only"] _ eq_refl).
  reflexivity.
Defined.

(** X21.  After arguments that parse, [--format] or [--output] as the last
    argument, with no value after it, is rejected as an unknown option;
    [--format] followed by anything but [text], [json] or [array] is
    rejected as an invalid format, and followed by one of them only the
    format changes. *)
Theorem parseArgs_trailing_value (fontPath : jsstring) (a : list jsstring)
    (options : Cli.CliOptions) (v : jsstring) :
  Cli.parseArgs (fontPath :: a) = Cli.Return (fontPath, options) ->
  Cli.parseArgs (fontPath :: a ++ [lit "--format"])
  = Cli.Exit (Cli.UnknownOption (lit "--format"))
  /\ Cli.parseArgs (fontPath :: a ++ [lit "--output"])
     = Cli.Exit (Cli.UnknownOption (lit "--output"))
  /\ Cli.parseArgs (fontPath :: a ++ [lit "--format"; v])
     = match Cli.asFormat v with
       | Some fmt =>
           Cli.Return (fontPath,
                       {| Cli.format := fmt; Cli.output := Cli.output options;
                          Cli.printableOnly := Cli.printableOnly options;
                          Cli.includeControl := Cli.includeControl options;
                          Cli.info := Cli.info options |})
       | None => Cli.Exit (Cli.InvalidFormat v)
       end.
Proof.
  unfold Cli.parseArgs.
  destruct (Cli.parseFrom a Cli.initial) as [o' | why] eqn:H; [| discriminate].
  intros [= <-].
  rewrite !(parseFrom_app a _ _ _ H).
  split; [reflexivity |]. split; [reflexivity |].
  cbn [Cli.parseFrom]. rewrite bool_decide_eq_true_2 by reflexivity.
  destruct (Cli.asFormat v); reflexivity.
Qed.

Lemma parseArgs_trailing_value_witness :
  Cli.parseArgs ([lit "font.ttf"; lit "--info"] ++ [lit "--format"])
  = Cli.Exit (Cli.UnknownOption (lit "--format"))
  /\ Cli.parseArgs ([lit "font.ttf"; lit "--info"] ++ [lit "--format"; lit "xml"])
     = Cli.Exit (Cli.InvalidFormat (lit "xml")).
Proof.
  destruct (parseArgs_trailing_value (lit "font.ttf") [lit "--info"] _ (lit "xml")
              eq_refl) as (H1 & _ & H2).
  split; [exact H1 | exact H2].
Defined.

End CommandLine.

(* ===================================================================== *)
(** ** Whole characters as units *)
(* ===================================================================== *)

Section WholeCharacters.
Import JS Props Further.

Lemma finalScan_loop (f : opentype.Font) (o : Types.ExtractOptions) :
  (FontExtractor.glyphs (finalScan f o), FontExtractor.textSet (finalScan f o))
  = loop (default true (Types.printableOnly o))
      (default false (Types.includeControlChars o)) (Types.filter o) 0
      (opentype.glyphs f) ([], ∅).
Proof. unfold finalScan. rewrite scanLoop_loop. reflexivity. Qed.

Lemma finalScan_glyphs (f : opentype.Font) (o : Types.ExtractOptions) :
  FontExtractor.glyphs (finalScan f o) = collected f o.
Proof.
  pose proof (finalScan_loop f o) as H. apply (f_equal fst) in H. exact H.
Qed.

Lemma finalScan_textSet (f : opentype.Font) (o : Types.ExtractOptions) (c : jsstring) :
  c ∈ FontExtractor.textSet (finalScan f o)
  <-> In c (List.map Types.char (collected f o)).
Proof.
  pose proof (finalScan_loop f o) as H. apply (f_equal snd) in H. simpl in H.
  rewrite H. unfold collected. apply loop_seenMatches.
Qed.

Lemma sorted_unicode_NoDup (f : opentype.Font) (o : Types.ExtractOptions) :
  List.NoDup (List.map Types.unicode (sort FontExtractor.byUnicode (collected f o))).
Proof.
  set (l := sort FontExtractor.byUnicode (collected f o)).
  assert (List.NoDup (List.map Types.char l)) as Hnd.
  { eapply Permutation_NoDup; [| apply collected_NoDup].
    apply Permutation_map, collected_sorted_perm. }
  assert (forall r, In r l -> toChar (Types.unicode r) = Some (Types.char r)) as Hc.
  { intros r Hr. apply (collected_toChar f o r Hr). }
  clearbody l. induction l as [| x l IH]; [constructor |].
  simpl in *. apply List.NoDup_cons_iff in Hnd as [Hx Hnd].
  constructor; [| apply IH; auto].
  intros Hin. apply Hx. apply in_map_iff in Hin as (y & Hy & Hyl).
  apply in_map_iff. exists y. split; [| exact Hyl].
  pose proof (Hc x (or_introl eq_refl)) as Hcx.
  pose proof (Hc y (or_intror Hyl)) as Hcy.
  rewrite Hy in Hcy. congruence.
Qed.

(** C6.  [checkTextInFont] splits its input by code point.  On any text the
    characters of the entries concatenate back to the text, each is one code
    unit or a surrogate pair, and a pair's [unicode] is the code point the
    pair encodes; a scalar value at the head of any text is one entry; on
    the UTF-16 form of any sequence of Unicode scalar values there is one
    entry per scalar value, so U+20000 is one entry.  In the inventory the
    set the loop deduplicates on holds exactly the characters of the
    records, each the whole character of its code point: it iterates as one
    character and decodes back to [unicode].  So glyphs are merged exactly
    when they have the same code point: every passing code point has
    exactly one record, also when another code point shares its first code
    unit. *)
Theorem astral_is_one_character :
  (forall (f : opentype.Font) (us : list N),
      Forall (fun u => isScalar u = true) us ->
      let r := FontChecker.checkTextInFont f (utf16 us) in
      List.map FontChecker.unicode (FontChecker.chars r) = List.map Num us
      /\ List.map FontChecker.char (FontChecker.chars r) = List.map rendered us
      /\ length (FontChecker.chars r) = length us)
  /\ (forall (f : opentype.Font) (o : Types.ExtractOptions) (info : Types.FontInfo)
        (r : Types.FontGlyph),
        FontExtractor.extractTextFromFont f o = Some info ->
        In r (Types.glyphs info) ->
        arrayFrom (Types.char r) = [Types.char r]
        /\ codePointAt0 (Types.char r) = Some (Types.unicode r)
        /\ fromCodePoint (Types.unicode r) = Some (Types.char r))
  /\ rendered 0x20000 = [0xD840; 0xDC00]
  /\ arrayFrom (rendered 0x20000) = [rendered 0x20000]
  /\ (forall (f : opentype.Font) (t : jsstring),
        let r := FontChecker.checkTextInFont f t in
        List.concat (List.map FontChecker.char (FontChecker.chars r)) = t
        /\ forall e, In e (FontChecker.chars r) ->
             (exists a, FontChecker.char e = [a] /\ FontChecker.unicode e = Num a)
             \/ (exists hi lo,
                   FontChecker.char e = [hi; lo]
                   /\ isHighSurrogate hi = true /\ isLowSurrogate lo = true
                   /\ FontChecker.unicode e = Num (combineSurrogates hi lo)))
  /\ (forall (f : opentype.Font) (u : N) (t : jsstring),
        isScalar u = true ->
        let r := FontChecker.checkTextInFont f (rendered u ++ t) in
        let r' := FontChecker.checkTextInFont f t in
        List.map FontChecker.char (FontChecker.chars r)
        = rendered u :: List.map FontChecker.char (FontChecker.chars r')
        /\ List.map FontChecker.unicode (FontChecker.chars r)
           = Num u :: List.map FontChecker.unicode (FontChecker.chars r'))
  /\ (forall (f : opentype.Font) (o : Types.ExtractOptions) (info : Types.FontInfo),
        FontExtractor.extractTextFromFont f o = Some info ->
        let st := finalScan f o in
        Types.glyphs info = sort FontExtractor.byUnicode (FontExtractor.glyphs st)
        /\ (forall c, c ∈ FontExtractor.textSet st
                      <-> In c (List.map Types.char (Types.glyphs info)))
        /\ (forall c, c ∈ FontExtractor.textSet st ->
              arrayFrom c = [c]
              /\ exists u, codePointAt0 c = Some u /\ fromCodePoint u = Some c)
        /\ List.NoDup (List.map Types.char (Types.glyphs info))
        /\ List.NoDup (List.map Types.unicode (Types.glyphs info))
        /\ (forall g u c,
              In g (opentype.glyphs f) -> opentype.unicode g = Some u ->
              toChar u = Some c ->
              passes (default true (Types.printableOnly o))
                (default false (Types.includeControlChars o)) (Types.filter o) c u
              = true ->
              c ∈ FontExtractor.textSet st
              /\ exists r,
                   List.filter (fun r' => Types.unicode r' =? u) (Types.glyphs info)
                   = [r]
                   /\ Types.unicode r = u /\ Types.char r = c)).
Proof.
  split; [| split; [| split; [| split; [| split; [| split]]]]]; try reflexivity.
  - intros f us Hus. rewrite checkTextInFont_eq. simpl.
    rewrite (arrayFrom_utf16 us Hus), !List.map_map. simpl.
    split; [| split].
    + apply List.map_ext_in. intros u Hu.
      rewrite List.Forall_forall in Hus.
      apply unicodeOf_toChar, scalar_toChar, Hus, Hu.
    + reflexivity.
    + rewrite !List.length_map. reflexivity.
  - intros f o info r H Hr.
    destruct (extract_inv f o info H) as (meta & _ & ->). simpl in Hr.
    destruct (collected_toChar f o r Hr) as (Hch & _ & _).
    split; [exact (arrayFrom_toChar _ _ Hch) |].
    split; [exact (codePointAt0_toChar _ _ Hch) |].
    rewrite <- toChar_fromCodePoint. exact Hch.
  - intros f t. rewrite checkTextInFont_eq. simpl.
    destruct (arrayFrom_shape t) as [Hcat Hshape]. split.
    + rewrite List.map_map. simpl. rewrite List.map_id. exact Hcat.
    + intros e He. apply in_map_iff in He as (c & <- & Hc). simpl.
      rewrite List.Forall_forall in Hshape.
      unfold FontChecker.unicodeOf.
      destruct (character_codePoint c (Hshape c Hc))
        as [(a & -> & Ha) | (hi & lo & -> & Hh & Hl & Hp)].
      * left. exists a. rewrite Ha. auto.
      * right. exists hi, lo. rewrite Hp. auto.
  - intros f u t Hu. rewrite !checkTextInFont_eq. simpl.
    rewrite (arrayFrom_scalar_app u (rendered u) t Hu (scalar_toChar u Hu)).
    simpl. rewrite (unicodeOf_toChar u (rendered u) (scalar_toChar u Hu)).
    split; reflexivity.
  - intros f o info H. destruct (extract_inv f o info H) as (meta & _ & ->).
    cbv zeta. cbn [Types.glyphs]. rewrite finalScan_glyphs.
    set (l := sort FontExtractor.byUnicode (collected f o)).
    assert (List.NoDup (List.map Types.char l)) as Hnd.
    { eapply Permutation_NoDup; [| apply collected_NoDup].
      apply Permutation_map, collected_sorted_perm. }
    assert (forall c, c ∈ FontExtractor.textSet (finalScan f o)
                      <-> In c (List.map Types.char l)) as Hset.
    { intros c. rewrite finalScan_textSet. split; apply Permutation_in;
        [| symmetry]; apply Permutation_map, collected_sorted_perm. }
    split; [reflexivity |]. split; [exact Hset |]. split; [| split; [exact Hnd |]].
    + intros c Hc. apply Hset in Hc. apply in_map_iff in Hc as (r & <- & Hr).
      destruct (collected_toChar f o r Hr) as (Hch & _ & _).
      split; [exact (arrayFrom_toChar _ _ Hch) |].
      exists (Types.unicode r). split; [exact (codePointAt0_toChar _ _ Hch) |].
      rewrite <- toChar_fromCodePoint. exact Hch.
    + split; [apply sorted_unicode_NoDup |].
      intros g u c Hg Hu Hc Hp.
      destruct (collected_complete f o g u c Hg Hu Hc Hp) as (r & Hr & Hru & Hrc).
      assert (In r l) as Hrl.
      { eapply Permutation_in; [apply collected_sorted_perm | exact Hr]. }
      split; [apply Hset; rewrite <- Hrc; apply in_map; exact Hrl |].
      exists r. split; [| auto].
      rewrite <- (filter_char_unique l r Hnd Hrl).
      apply List.filter_ext_in. intros r' Hr'.
      destruct (collected_toChar f o r' Hr') as (Hch' & _ & _).
      destruct (N.eqb_spec (Types.unicode r') u) as [E | E].
      * symmetry. apply bool_decide_eq_true_2. rewrite E in Hch'. congruence.
      * symmetry. apply bool_decide_eq_false_2. intros E'. apply E.
        rewrite E', Hrc in Hch'. exact (toChar_inj _ _ _ Hch' Hc).
Qed.

(** U+20000 twice and U+20001, whose characters share the code unit D840:
    two records, one per code point. *)
Lemma astral_is_one_character_witness :
  (let r := FontChecker.checkTextInFont Samples.withExtensionB
              (utf16 [0x41; 0x20000; 0x1F600]) in
   utf16 [0x41; 0x20000; 0x1F600] = [0x41; 0xD840; 0xDC00; 0xD83D; 0xDE00]
   /\ List.map FontChecker.unicode (FontChecker.chars r)
      = [Num 0x41; Num 0x20000; Num 0x1F600]
   /\ length (FontChecker.chars r) = 3%nat)
  /\ (exists info,
        FontExtractor.extractTextFromFont Samples.withExtensionB Samples.defaults
        = Some info
        /\ List.map Types.char (Types.glyphs info) = [[0x41]; [0xD840; 0xDC00]]
        /\ forall r, In r (Types.glyphs info) ->
             arrayFrom (Types.char r) = [Types.char r])
  /\ (exists info,
        FontExtractor.extractTextFromFont sharedHighSurrogate Samples.defaults
        = Some info
        /\ List.map Types.char (Types.glyphs info)
           = [[0xD840; 0xDC00]; [0xD840; 0xDC01]]
        /\ List.map Types.name (Types.glyphs info) = [lit "u20000"; lit "u20001"]
        /\ [0xD840; 0xDC01] ∈ FontExtractor.textSet
                                 (finalScan sharedHighSurrogate Samples.defaults)
        /\ List.NoDup (List.map Types.unicode (Types.glyphs info))).
Proof.
  destruct astral_is_one_character as (Htext & Hinv & _ & _ & _ & _ & Hkey).
  split; [| split].
  - destruct (Htext Samples.withExtensionB [0x41; 0x20000; 0x1F600]) as (Hu & _ & Hl).
    { repeat constructor. }
    simpl. split; [reflexivity |]. split; [exact Hu | exact Hl].
  - eexists. split; [reflexivity |]. split; [reflexivity |].
    intros r Hr.
    apply (Hinv Samples.withExtensionB Samples.defaults _ r eq_refl Hr).
  - eexists. split; [reflexivity |]. split; [reflexivity |]. split; [reflexivity |].
    destruct (Hkey sharedHighSurrogate Samples.defaults _ eq_refl)
      as (_ & _ & _ & _ & Hnd & Hrec).
    split; [| exact Hnd].
    apply (Hrec (Samples.glyphAt 0x20001 "u20001") 0x20001 [0xD840; 0xDC01]);
      try reflexivity.
    left. reflexivity.
Defined.

End WholeCharacters.
